(** * vibeday: the itinerary construction engine

    A shallow embedding of the deterministic core of the planner:
    the skeleton builder (budget + time window -> slot template), the
    venue scorer and ranker, the proximity clusterer, the finalist
    selector and the plan builder.

    Numbers.  The source computes on JavaScript numbers.  Here a number
    that is an input (a coordinate, a rating, a budget) is an exact
    rational ([Q]), and a number that the source only ever holds as an
    integer (minutes, percents) is a [Z]; equality of rationals is [==].
    A division is only relied on where its divisor is not zero.  A number
    that the engine computes from a distance is a [Js.number]: a rational
    or NaN.  The haversine distance needs trigonometry: the scorer and the
    clusterer take it as a parameter ([Geodesy]) whose value is a number
    or NaN, and [Binary64.calculateDistance] is the function of the source
    on doubles, with the sine, cosine and arc tangent of the engine as
    parameters.

    Strings are strings of bytes, and case and blanks are those of ASCII.

    Exceptions.  A function of the source that can throw returns an
    [Outcome]; a value the source turns into NaN is an [option]. *)

From Stdlib Require Import QArith Qround Qminmax Qabs Lqa Lia ZArith.
From Stdlib Require Import Ascii String Sorted.
From Stdlib Require PrimFloat.
From stdpp Require Import gmap strings list option pretty.

Local Open Scope string_scope.

(** ** The fragment of the JavaScript library the engine uses *)

Module Js.

(** [Math.floor] and [Math.round] (halves go up) on an exact number. *)
Definition floor (x : Q) : Z := Qfloor x.
Definition round (x : Q) : Z := Qfloor (x + (1 # 2)).

Definition ltb (x y : Q) : bool := negb (Qle_bool y x).
Definition leb (x y : Q) : bool := Qle_bool x y.
Definition eqb (x y : Q) : bool := Qeq_bool x y.

(** A number that a computation can have turned into NaN: a rational, or
    NaN.  Arithmetic on NaN gives NaN, and a comparison with NaN is
    false whichever way it is put. *)
Inductive number := finite (q : Q) | NaN.

Definition lift2 (op : Q -> Q -> Q) (x y : number) : number :=
  match x, y with
  | finite a, finite b => finite (op a b)
  | _, _ => NaN
  end.
Definition add : number -> number -> number := lift2 Qplus.
Definition sub : number -> number -> number := lift2 Qminus.
Definition mul : number -> number -> number := lift2 Qmult.
(** [x / y], for a divisor that is a constant other than 0. *)
Definition div : number -> number -> number := lift2 Qdiv.

(** [x <= y] and [x >= y]. *)
Definition le (x y : number) : bool :=
  match x, y with
  | finite a, finite b => leb a b
  | _, _ => false
  end.
Definition ge (x y : number) : bool :=
  match x, y with
  | finite a, finite b => leb b a
  | _, _ => false
  end.

(** What a sort makes of the number its comparator returns: the number
    itself, and +0 for NaN. *)
Definition sortCompare (v : number) : Q :=
  match v with
  | finite q => q
  | NaN => 0
  end.

(** Character classes, by character code. *)
Definition code (c : ascii) : nat := nat_of_ascii c.
Definition isDigit (c : ascii) : bool :=
  (48 <=? code c)%nat && (code c <=? 57)%nat.
Definition isBlank (c : ascii) : bool :=
  (code c =? 32)%nat || ((9 <=? code c)%nat && (code c <=? 13)%nat).
Definition digitValue (c : ascii) : Z := Z.of_nat (code c - 48).

(** [s.split(sep)] for a one-character separator: never empty. *)
Fixpoint split (sep : ascii) (s : string) : list string :=
  match s with
  | EmptyString => [EmptyString]
  | String c rest =>
      if (code c =? code sep)%nat then EmptyString :: split sep rest
      else match split sep rest with
           | part :: parts => String c part :: parts
           | [] => [String c EmptyString]
           end
  end.

Fixpoint skipBlanks (s : string) : string :=
  match s with
  | String c rest => if isBlank c then skipBlanks rest else s
  | EmptyString => s
  end.

(** The value of the longest prefix of decimal digits; [acc] is [None]
    until a digit has been read. *)
Fixpoint digits (s : string) (acc : option Z) : option Z :=
  match s with
  | String c rest =>
      if isDigit c
      then digits rest (Some (10 * default 0 acc + digitValue c))%Z
      else acc
  | EmptyString => acc
  end.

(** [parseInt(s, 10)]: blanks, an optional sign, then digits; [None] is
    NaN (no digit where one is expected). *)
Definition parseInt (s : string) : option Z :=
  match skipBlanks s with
  | String c rest =>
      if (code c =? 45)%nat then Z.opp <$> digits rest None
      else if (code c =? 43)%nat then digits rest None
      else digits (String c rest) None
  | EmptyString => None
  end.

Fixpoint allDigits (s : string) : bool :=
  match s with
  | String c rest => isDigit c && allDigits rest
  | EmptyString => true
  end.

(** [Number(s)] on the strings the engine meets: a run of digits is its
    value, the empty string is 0, and anything else is taken as NaN
    (blanks, signs, fractions, exponents and radix prefixes do not occur
    in an HH:MM string). *)
Definition Number (s : string) : option Z :=
  match s with
  | EmptyString => Some 0%Z
  | _ => if allDigits s then digits s None else None
  end.

(** [s.padStart(2, "0")]. *)
Definition padStart2 (s : string) : string :=
  match String.length s with
  | O => "00"
  | S O => "0" +:+ s
  | _ => s
  end.

(** [n.toString()] of an integer. *)
Definition toString (n : Z) : string := pretty n.

(** [s.toLowerCase()] on ASCII. *)
Definition lowerChar (c : ascii) : ascii :=
  if (65 <=? code c)%nat && (code c <=? 90)%nat
  then ascii_of_nat (code c + 32) else c.
Fixpoint toLowerCase (s : string) : string :=
  match s with
  | String c rest => String (lowerChar c) (toLowerCase rest)
  | EmptyString => EmptyString
  end.

Definition upperChar (c : ascii) : ascii :=
  if (97 <=? code c)%nat && (code c <=? 122)%nat
  then ascii_of_nat (code c - 32) else c.

(** [hay.includes(needle)]: the empty needle is always included. *)
Fixpoint startsWith (needle hay : string) : bool :=
  match needle, hay with
  | EmptyString, _ => true
  | String a needle', String b hay' =>
      (code a =? code b)%nat && startsWith needle' hay'
  | String _ _, EmptyString => false
  end.
Fixpoint includes (hay needle : string) : bool :=
  startsWith needle hay ||
  match hay with
  | String _ hay' => includes hay' needle
  | EmptyString => false
  end.

(** [a.sort(cmp)], where [cmp x y] is the number the sort reads off the
    comparator (see [sortCompare]).  The sort of the language is stable, so
    with a comparator that orders the elements consistently the result is
    the one of a stable insertion sort, whatever the engine runs: an
    element goes in front of the first one it does not come after.  With a
    comparator that is not consistent, as one that returns NaN for some
    pairs and an order for others, the language leaves the order to the
    engine; the insertion sort is then one such engine. *)
Section Sort.
Context {A : Type} (cmp : A -> A -> Q).

Fixpoint insert (x : A) (l : list A) : list A :=
  match l with
  | [] => [x]
  | y :: l' => if leb (cmp x y) 0 then x :: y :: l' else y :: insert x l'
  end.

Definition sort (l : list A) : list A := foldr insert [] l.
End Sort.

(** [a.slice(from, to)]. *)
Definition slice {A : Type} (from to : nat) (l : list A) : list A :=
  take (to - from) (drop from l).

End Js.

Coercion Js.finite : Q >-> Js.number.
Declare Scope number_scope.
Delimit Scope number_scope with num.
Infix "+" := Js.add : number_scope.
Infix "-" := Js.sub : number_scope.
Infix "*" := Js.mul : number_scope.
Infix "/" := Js.div : number_scope.

(** ** Skeleton builder (src/unnamed/part_000) *)

(** The [type] of a slot: "drinks", "activity", "dinner", "dessert" or
    "scenic". *)
Inductive SlotType := Tdrinks | Tactivity | Tdinner | Tdessert | Tscenic.

Record SkeletonSlot := {
  label : string;
  type : SlotType;
  budgetPercent : Z;
  timeStart : option string;
  durationMins : option Z
}.

Record Budget := { amount : Q; currency : string }.

Record TimeWindow := { start : string; end_ : string }.

Record Skeleton := {
  slots : list SkeletonSlot;
  totalBudget : Q;
  timeWindow : TimeWindow
}.

Definition slot (l : string) (t : SlotType) (p d : Z) : SkeletonSlot :=
  {| label := l; type := t; budgetPercent := p;
     timeStart := None; durationMins := Some d |}.

Definition DEFAULT_TEMPLATE : list SkeletonSlot :=
  [ slot "Arrival drink" Tdrinks 15 45;
    slot "Main activity" Tactivity 25 90;
    slot "Dinner" Tdinner 50 90;
    slot "Nightcap / Dessert" Tdessert 10 45 ].

Definition LATE_START_TEMPLATE : list SkeletonSlot :=
  [ slot "Dinner" Tdinner 55 100;
    slot "Activity / Walk" Tactivity 25 60;
    slot "Nightcap" Tdrinks 20 45 ].

Definition AFTERNOON_TEMPLATE : list SkeletonSlot :=
  [ slot "Coffee / Light bite" Tdrinks 15 30;
    slot "Main activity" Tactivity 50 120;
    slot "Late lunch / Early dinner" Tdinner 35 75 ].

Definition BUDGET_TEMPLATE : list SkeletonSlot :=
  [ slot "Scenic walk / Free activity" Tscenic 5 45;
    slot "Main activity" Tactivity 30 90;
    slot "Dinner" Tdinner 55 75;
    slot "Dessert / Walk" Tdessert 10 30 ].

Definition FANCY_TEMPLATE : list SkeletonSlot :=
  [ slot "Champagne / Aperitif" Tdrinks 12 45;
    slot "Premium activity" Tactivity 28 90;
    slot "Fine dining" Tdinner 50 120;
    slot "Cocktails / Nightcap" Tdrinks 10 45 ].

(** Minutes since midnight of an "HH:MM" string; [None] is NaN.  What the
    source goes on to do with a NaN time is not modelled: the functions
    below that parse a time return [None] with it. *)
Definition parseTime (time : string) : option Z :=
  let parts := Js.split ":" time in
  hours ← Js.parseInt (default "0" (parts !! 0%nat));
  minutes ← Js.parseInt (default "0" (parts !! 1%nat));
  Some (hours * 60 + minutes)%Z.

Definition formatTime (minutes : Z) : string :=
  let h := Z.rem (minutes / 60) 24 in
  let m := Z.rem minutes 60 in
  Js.padStart2 (Js.toString h) +:+ ":" +:+ Js.padStart2 (Js.toString m).

(** The length of the window as both [selectTemplate] and
    [adjustDurations] compute it. *)
Definition windowMins (startMins endMins : Z) : Z :=
  if (startMins <? endMins)%Z then (endMins - startMins)%Z
  else ((24 * 60 - startMins) + endMins)%Z.

Definition shortTemplate (durationMins : Z) : list SkeletonSlot :=
  [ slot "Activity" Tactivity 40 (Js.floor (inject_Z durationMins * (4 # 10)));
    slot "Dinner / Drinks" Tdinner 60
         (Js.floor (inject_Z durationMins * (6 # 10))) ].

Definition selectTemplate (budget : Budget) (startTime endTime : string)
  : option (list SkeletonSlot) :=
  startMins ← parseTime startTime;
  endMins ← parseTime endTime;
  let durationMins := windowMins startMins endMins in
  Some (if Js.ltb (amount budget) 80 then BUDGET_TEMPLATE
        else if Js.ltb 250 (amount budget) then FANCY_TEMPLATE
        else if (20 * 60 <=? startMins)%Z then LATE_START_TEMPLATE
        else if (14 * 60 <=? startMins)%Z && (endMins <=? 18 * 60)%Z
             then AFTERNOON_TEMPLATE
        else if (durationMins <? 180)%Z then shortTemplate durationMins
        else DEFAULT_TEMPLATE).

Definition totalTemplateMins (slots : list SkeletonSlot) : Z :=
  foldl (fun sum s => (sum + default 0%Z (durationMins s))%Z) 0%Z slots.

Definition scaleFor (availableMins total : Z) : Q :=
  if (0 <? total)%Z then inject_Z availableMins / inject_Z total else 1.

Definition rescale (scale : Q) (s : SkeletonSlot) : SkeletonSlot :=
  {| label := label s; type := type s; budgetPercent := budgetPercent s;
     timeStart := timeStart s;
     durationMins :=
       Some (Js.round (inject_Z (default 60%Z (durationMins s)) * scale)) |}.

Definition adjustDurations (slots : list SkeletonSlot)
    (startTime endTime : string) : option (list SkeletonSlot) :=
  startMins ← parseTime startTime;
  endMins ← parseTime endTime;
  let availableMins := windowMins startMins endMins in
  let scale := scaleFor availableMins (totalTemplateMins slots) in
  Some (map (rescale scale) slots).

(** The [map] of [assignTimes] with its running [currentMins]. *)
Fixpoint assignFrom (currentMins : Z) (slots : list SkeletonSlot)
  : list SkeletonSlot :=
  match slots with
  | [] => []
  | s :: rest =>
      {| label := label s; type := type s; budgetPercent := budgetPercent s;
         timeStart := Some (formatTime currentMins);
         durationMins := durationMins s |}
      :: assignFrom (currentMins + default 60%Z (durationMins s) + 10)%Z rest
  end.

Definition assignTimes (slots : list SkeletonSlot) (startTime : string)
  : option (list SkeletonSlot) :=
  currentMins ← parseTime startTime;
  Some (assignFrom currentMins slots).

Definition buildSkeleton (budget : Budget) (startTime endTime : string)
  : option Skeleton :=
  slots0 ← selectTemplate budget startTime endTime;
  slots1 ← adjustDurations slots0 startTime endTime;
  slots2 ← assignTimes slots1 startTime;
  Some {| slots := slots2;
          totalBudget := amount budget;
          timeWindow := {| start := startTime; end_ := endTime |} |}.

Definition slotTypeName (t : SlotType) : string :=
  match t with
  | Tdrinks => "drinks" | Tactivity => "activity" | Tdinner => "dinner"
  | Tdessert => "dessert" | Tscenic => "scenic"
  end.

Definition getBudgetForSlot (skeleton : Skeleton) (slotType : string) : Z :=
  match List.find (fun s => String.eqb (slotTypeName (type s)) slotType)
                  (slots skeleton) with
  | None => 0
  | Some s =>
      Js.round (totalBudget skeleton * inject_Z (budgetPercent s) / 100)
  end.

Definition totalPercent (skeleton : Skeleton) : Z :=
  foldl (fun sum s => (sum + budgetPercent s)%Z) 0%Z (slots skeleton).

Definition validateSkeleton (skeleton : Skeleton) : bool :=
  (95 <=? totalPercent skeleton)%Z && (totalPercent skeleton <=? 105)%Z.

(** ** Venues and preferences (src/src/types/state.ts) *)

Record Location := { lat : Q; lng : Q }.

(** The category of a venue.  The schema types it as a string; the data
    model fixes its values, and they are the only ones the engine's
    tables are read at. *)
Inductive Category :=
  Cactivity | Cdinner | Cdrinks | Cdessert | Cfinish | Cscenic | Cother.

Definition categoryName (c : Category) : string :=
  match c with
  | Cactivity => "activity" | Cdinner => "dinner" | Cdrinks => "drinks"
  | Cdessert => "dessert" | Cfinish => "finish" | Cscenic => "scenic"
  | Cother => "other"
  end.

(** [openingHours] is never read by the engine and is left out. *)
Record Venue := {
  name : string;
  placeId : string;
  mapsUrl : string;
  address : string;
  location : Location;
  priceLevel : option Q;
  rating : option Q;
  reviewCount : option Q;
  category : Category
}.

Inductive Walking := low | medium | high.

Record Preferences := {
  vibe : list string;
  dietary : list string;
  alcoholOk : bool;
  walking : Walking;
  indoorsPreferred : bool;
  likes : list string;
  familyFriendly : bool
}.

(** ** Exceptions *)

Inductive JsError := TypeError (message : string).

Inductive Outcome (A : Type) :=
| Returns (a : A)
| Throws (e : JsError).
Arguments Returns {A} a.
Arguments Throws {A} e.

#[global] Instance Outcome_ret : MRet Outcome := fun A a => Returns a.
#[global] Instance Outcome_bind : MBind Outcome := fun A B f m =>
  match m with
  | Returns a => f a
  | Throws e => Throws e
  end.

(** ** Venue scorer (src/src/agent/ranking.ts) *)

(** The functions of [Math] that are not arithmetic on doubles: they are
    the engine's own, and the language only asks that they approximate
    the real functions and return NaN on NaN. *)
Module Math.
Import PrimFloat.
Class Engine := {
  sin : float -> float;
  cos : float -> float;
  atan2 : float -> float -> float
}.
Definition PI : float := 0x1.921fb54442d18p+1%float.
Definition sqrt : float -> float := PrimFloat.sqrt.
End Math.

(** [calculateDistance] as the source has it, on doubles: the haversine
    formula, Earth radius 6,371,000 m. *)
Module Binary64.
Import PrimFloat.
Local Open Scope float_scope.

Record Location := { lat : float; lng : float }.

Definition calculateDistance `{Math.Engine} (loc1 loc2 : Location) : float :=
  let R := 6371000 in
  let lat1 := (lat loc1 * Math.PI) / 180 in
  let lat2 := (lat loc2 * Math.PI) / 180 in
  let dLat := ((lat loc2 - lat loc1) * Math.PI) / 180 in
  let dLng := ((lng loc2 - lng loc1) * Math.PI) / 180 in
  let a :=
    Math.sin (dLat / 2) * Math.sin (dLat / 2)
    + Math.cos lat1 * Math.cos lat2 * Math.sin (dLng / 2)
      * Math.sin (dLng / 2) in
  let c := 2 * Math.atan2 (Math.sqrt a) (Math.sqrt (1 - a)) in
  R * c.

End Binary64.

(** The distance as the scorer, the clusterer and the selector get it from
    [calculateDistance]: metres, or NaN.  The haversine term [a] above can
    round to more than 1, for two points that are nearly opposite on the
    globe, and then the square root of [1 - a] and with it the distance is
    NaN.  Nothing else is assumed of the distance. *)
Class Geodesy := calculateDistance : Location -> Location -> Js.number.

Local Open Scope Q_scope.

Record Weights := {
  w_rating : Q;
  w_proximity : Q;
  w_priceMatch : Q;
  w_preferenceMatch : Q;
  w_reviewCount : Q
}.

Definition WEIGHTS : Weights :=
  {| w_rating := 30 # 100;
     w_proximity := 25 # 100;
     w_priceMatch := 20 # 100;
     w_preferenceMatch := 15 # 100;
     w_reviewCount := 10 # 100 |}.

(** The key a number indexes an array or a numeric-keyed object with: a
    non-negative integer, or nothing. *)
Definition asIndex (q : Q) : option nat :=
  if Js.eqb q (inject_Z (Qfloor q)) && (0 <=? Qfloor q)%Z
  then Some (Z.to_nat (Qfloor q)) else None.

Definition PRICE_LEVEL_EUR : list (Q * Q) :=
  [ (0, 10); (10, 25); (25, 50); (50, 100); (100, 200) ]%Q.

Definition calculateCentroid (venues : list Venue) : Location :=
  match venues with
  | [] => {| lat := 0; lng := 0 |}
  | _ =>
      let sum :=
        foldl (fun acc v => {| lat := lat acc + lat (location v);
                               lng := lng acc + lng (location v) |})
              {| lat := 0; lng := 0 |} venues in
      {| lat := lat sum / inject_Z (Z.of_nat (length venues));
         lng := lng sum / inject_Z (Z.of_nat (length venues)) |}
  end.

(** [!venue.rating] holds of a missing rating and of the rating 0. *)
Definition scoreRating (venue : Venue) : Q :=
  match rating venue with
  | None => 1 # 2
  | Some r =>
      if Js.eqb r 0 then 1 # 2
      else Qmax 0 (Qmin 1 ((r - 3) / 2))
  end.

(** Of a NaN distance both tests are false, and the last line makes NaN
    of it. *)
Definition scoreProximity `{Geodesy} (venue : Venue) (reference : Location)
  : Js.number :=
  let distance := calculateDistance (location venue) reference in
  if Js.le distance 500 then 1
  else if Js.ge distance 5000 then 0
  else (1 - (distance - 500) / 4500)%num.

Definition scorePriceMatch (venue : Venue) (targetBudgetPerPerson : Q) : Q :=
  match priceLevel venue with
  | None => 1 # 2
  | Some level =>
      match asIndex level ≫= fun i => PRICE_LEVEL_EUR !! i with
      | None => 1 # 2
      | Some (min, max) =>
          if Js.leb min targetBudgetPerPerson
             && Js.leb targetBudgetPerPerson max
          then 1
          else if Js.ltb targetBudgetPerPerson min
          then let overBy := min - targetBudgetPerPerson in
               Qmax (1 # 10) ((7 # 10) - overBy / 50)
          else 8 # 10
      end
  end.

(** What reading a property of the object literal [vibeKeywords] gives: the
    list it owns under that key, something inherited from
    [Object.prototype] (a function or an object, never a list), or
    [undefined]. *)
Inductive Property :=
| Own (keywords : list string)
| Inherited
| Undefined.

Definition objectPrototypeKeys : list string :=
  [ "constructor"; "__defineGetter__"; "__defineSetter__"; "hasOwnProperty";
    "__lookupGetter__"; "__lookupSetter__"; "isPrototypeOf";
    "propertyIsEnumerable"; "toString"; "valueOf"; "__proto__";
    "toLocaleString" ].

Definition vibeKeywords (key : string) : Property :=
  if String.eqb key "romantic"
  then Own ["intimate"; "candlelit"; "cozy"; "wine"; "french"; "italian"]
  else if String.eqb key "adventurous"
  then Own ["escape"; "adventure"; "tour"; "climb"; "explore"]
  else if String.eqb key "relaxed"
  then Own ["lounge"; "cafe"; "garden"; "terrace"; "spa"]
  else if String.eqb key "fancy"
  then Own ["michelin"; "fine dining"; "premium"; "gourmet"; "luxur"]
  else if String.eqb key "playful"
  then Own ["game"; "bowling"; "arcade"; "karaoke"; "comedy"]
  else if existsb (String.eqb key) objectPrototypeKeys then Inherited
  else Undefined.

(** [vibeKeywords[vibe] ?? []] followed by [for (... of keywords)]: only
    [undefined] falls back to the empty list, and iterating what is
    inherited from the prototype throws. *)
Definition keywordsOf (vibe : string) : Outcome (list string) :=
  match vibeKeywords vibe with
  | Own keywords => Returns keywords
  | Undefined => Returns []
  | Inherited => Throws (TypeError "keywords is not iterable")
  end.

Definition boostLike (venueName venueCategory : string) (score : Q)
    (like : string) : Q :=
  if Js.includes venueName like || Js.includes venueCategory like
  then score + (15 # 100) else score.

Definition boostKeyword (venueName : string) (score : Q) (keyword : string)
  : Q :=
  if Js.includes venueName keyword then score + (1 # 10) else score.

(** The loop over the vibes, with the score it updates. *)
Fixpoint boostVibes (venueName : string) (vibes : list string) (score : Q)
  : Outcome Q :=
  match vibes with
  | [] => Returns score
  | vibe :: rest =>
      keywords ← keywordsOf vibe;
      boostVibes venueName rest (foldl (boostKeyword venueName) score keywords)
  end.

Definition scorePreferenceMatch (venue : Venue) (preferences : Preferences)
  : Outcome Q :=
  let likes := map Js.toLowerCase (likes preferences) in
  let vibes := map Js.toLowerCase (vibe preferences) in
  let venueName := Js.toLowerCase (name venue) in
  let venueCategory := Js.toLowerCase (categoryName (category venue)) in
  let score := foldl (boostLike venueName venueCategory) (1 # 2) likes in
  score ← boostVibes venueName vibes score;
  Returns (Qmin 1 score).

(** [!venue.reviewCount] holds of a missing count and of the count 0. *)
Definition scoreReviewCount (venue : Venue) : Q :=
  match reviewCount venue with
  | None => 3 # 10
  | Some n =>
      if Js.eqb n 0 then 3 # 10
      else if Js.leb 500 n then 1
      else if Js.leb 100 n then 8 # 10
      else if Js.leb 50 n then 6 # 10
      else if Js.leb 20 n then 4 # 10
      else 3 # 10
  end.

Record Scores := {
  s_rating : Q;
  s_proximity : Js.number;
  s_priceMatch : Q;
  s_preferenceMatch : Q;
  s_reviewCount : Q
}.

Record ScoredVenue := {
  venue : Venue;
  score : Js.number;
  scores : Scores
}.

Definition totalScore (s : Scores) : Js.number :=
  (s_rating s * w_rating WEIGHTS
   + s_proximity s * w_proximity WEIGHTS
   + s_priceMatch s * w_priceMatch WEIGHTS
   + s_preferenceMatch s * w_preferenceMatch WEIGHTS
   + s_reviewCount s * w_reviewCount WEIGHTS)%num.

(** The callback of the [map] in [rankVenues]. *)
Definition scoreVenue `{Geodesy} (preferences : Preferences)
    (targetBudgetPerPerson : Q) (reference : Location) (v : Venue)
  : Outcome ScoredVenue :=
  preferenceMatch ← scorePreferenceMatch v preferences;
  let scores :=
    {| s_rating := scoreRating v;
       s_proximity := scoreProximity v reference;
       s_priceMatch := scorePriceMatch v targetBudgetPerPerson;
       s_preferenceMatch := preferenceMatch;
       s_reviewCount := scoreReviewCount v |} in
  Returns {| venue := v; score := totalScore scores; scores := scores |}.

(** The comparator of the sort: NaN when either score is. *)
Definition byScoreDescending (a b : ScoredVenue) : Js.number :=
  (score b - score a)%num.

Definition rankVenues `{Geodesy} (venues : list Venue)
    (preferences : Preferences) (targetBudgetPerPerson : Q)
    (referenceLocation : option Location) : Outcome (list ScoredVenue) :=
  let reference := default (calculateCentroid venues) referenceLocation in
  scored ← mapM (scoreVenue preferences targetBudgetPerPerson reference)
                venues;
  Returns (Js.sort (fun a b => Js.sortCompare (byScoreDescending a b))
                   scored).

(** ** Proximity clusterer (src/src/agent/ranking.ts) *)

(** The inner loop: [seed]'s cluster absorbs every venue that is not yet
    assigned and lies within the radius of the seed. *)
Definition absorb `{Geodesy} (maxDistanceMeters : Q) (seed : Venue)
    (st : list Venue * gset string) (other : Venue)
  : list Venue * gset string :=
  let '(cluster, assigned) := st in
  if bool_decide (placeId other ∈ assigned) then st
  else if Js.le (calculateDistance (location seed) (location other))
                maxDistanceMeters
       then ((cluster ++ [other])%list, {[placeId other]} ∪ assigned)
       else st.

(** The outer loop: an unassigned venue opens a cluster. *)
Definition openCluster `{Geodesy} (maxDistanceMeters : Q)
    (venues : list Venue) (st : list (list Venue) * gset string)
    (v : Venue) : list (list Venue) * gset string :=
  let '(clusters, assigned) := st in
  if bool_decide (placeId v ∈ assigned) then st
  else
    let '(cluster, assigned') :=
      foldl (absorb maxDistanceMeters v)
            ([v], {[placeId v]} ∪ assigned) venues in
    ((clusters ++ [cluster])%list, assigned').

Definition bySizeDescending (a b : list Venue) : Q :=
  inject_Z (Z.of_nat (length b)) - inject_Z (Z.of_nat (length a)).

Definition clusterByProximity `{Geodesy} (venues : list Venue)
    (maxDistanceMeters : option Q) : list (list Venue) :=
  let radius := default 1500 maxDistanceMeters in
  match venues with
  | [] => []
  | _ =>
      let '(clusters, _) :=
        foldl (openCluster radius venues) ([], ∅) venues in
      Js.sort bySizeDescending clusters
  end.

(** ** Finalist selector (src/src/agent/ranking.ts) *)

Record PerCategory (A : Type) := {
  activity : A;
  dinner : A;
  finish : A
}.
Arguments activity {A} _.
Arguments dinner {A} _.
Arguments finish {A} _.

Record Selection := {
  selected : gmap string Venue;
  backups : gmap string (list Venue)
}.

(** One of the [if (ranked.length > 0 && ranked[0]) { ... }] blocks: the
    first of the ranking is the pick, [ranked.slice(1, upTo)] the backups. *)
Definition pick (key : string) (upTo : nat) (ranked : list ScoredVenue)
    (sel : Selection) : Selection :=
  match ranked with
  | first :: _ =>
      {| selected := <[key := venue first]> (selected sel);
         backups := <[key := map venue (Js.slice 1 upTo ranked)]>
                      (backups sel) |}
  | [] => sel
  end.

Definition rerankAround `{Geodesy} (key : string) (pool : list Venue)
    (preferences : Preferences) (budget : Q) (ranked : list ScoredVenue)
    (dinnerLocation : Location) (sel : Selection) : Outcome Selection :=
  if (1 <? length ranked)%nat then
    reranked ← rankVenues pool preferences budget (Some dinnerLocation);
    Returns (pick key 3 reranked sel)
  else Returns sel.

Definition selectBestVenues `{Geodesy} (pools : PerCategory (list Venue))
    (preferences : Preferences) (budgetPerCategory : PerCategory Q)
  : Outcome Selection :=
  rankedActivity ←
    rankVenues (activity pools) preferences (activity budgetPerCategory) None;
  rankedDinner ←
    rankVenues (dinner pools) preferences (dinner budgetPerCategory) None;
  rankedFinish ←
    rankVenues (finish pools) preferences (finish budgetPerCategory) None;
  let sel0 :=
    {| selected := ∅;
       backups := <["activity" := []]>
                    (<["dinner" := []]> (<["finish" := []]> ∅)) |} in
  let sel1 := pick "activity" 3 rankedActivity sel0 in
  let sel2 := pick "dinner" 4 rankedDinner sel1 in
  let sel3 := pick "finish" 3 rankedFinish sel2 in
  match selected sel3 !! "dinner" with
  | Some dinnerVenue =>
      let dinnerLocation := location dinnerVenue in
      sel4 ← rerankAround "activity" (activity pools) preferences
               (activity budgetPerCategory) rankedActivity dinnerLocation
               sel3;
      rerankAround "finish" (finish pools) preferences
        (finish budgetPerCategory) rankedFinish dinnerLocation sel4
  | None => Returns sel3
  end.

Definition calculateItineraryDistance `{Geodesy} (venues : list Venue)
  : Js.number :=
  foldl (fun total leg =>
           (total + calculateDistance (location leg.1) (location leg.2))%num)
        (Js.finite 0) (zip venues (drop 1 venues)).

(** ** Plan builder (src/src/agent/graph.ts) *)

(** How a number prints inside a template string. *)
Class NumberFormat := numberToString : Q -> string.

Inductive Mode := standard | verified.
Inductive PlanId := A | B | C.

Record Stop := {
  time : string;
  stop_label : string;
  stop_venue : Venue;
  estimatedCostRange : Z * Z;
  whyItFits : string;
  travelFromPrevMins : Z;
  openCheck : string
}.

Record Backup := {
  backup_label : string;
  backup_name : string;
  backup_mapsUrl : string;
  whyBackup : string
}.

Record Plan := {
  id : PlanId;
  title : string;
  stops : list Stop;
  plan_backups : list Backup
}.

Definition addMinutes (time : string) (mins : Z) : string :=
  let parts := map Js.Number (Js.split ":" time) in
  match default (Some 0%Z) (parts !! 0%nat),
        default (Some 0%Z) (parts !! 1%nat) with
  | Some h, Some m => formatTime (h * 60 + m + mins)
  | _, _ => "NaN:NaN"
  end.

Definition ratingText `{NumberFormat} (v : Venue) : string :=
  match rating v with
  | Some r => numberToString r
  | None => "good"
  end.

Definition venueToBackup `{NumberFormat} (v : Venue) : Backup :=
  {| backup_label :=
       match category v with
       | Cdinner => "Dinner backup"
       | _ => "Activity backup"
       end;
     backup_name := name v;
     backup_mapsUrl := mapsUrl v;
     whyBackup := "Alternative " +:+ categoryName (category v) +:+ " with "
                  +:+ ratingText v +:+ " rating" |}.

(** The [filter] that removes duplicates, with the set [seen] it fills. *)
Fixpoint uniqueFrom (seen : gset string) (venues : list Venue)
  : list Venue :=
  match venues with
  | [] => []
  | v :: rest =>
      if bool_decide (placeId v ∈ seen) then uniqueFrom seen rest
      else v :: uniqueFrom ({[placeId v]} ∪ seen) rest
  end.

Definition categoryOrder (familyFriendly : bool) : list string :=
  if familyFriendly
  then ["activity"; "dinner"; "dessert"; "scenic"; "finish"; "drinks"]
  else ["drinks"; "activity"; "dinner"; "dessert"; "finish"; "scenic"].

Fixpoint indexOfFrom (i : Z) (l : list string) (x : string) : Z :=
  match l with
  | [] => (-1)%Z
  | y :: l' => if String.eqb y x then i else indexOfFrom (i + 1)%Z l' x
  end.
Definition indexOf (l : list string) (x : string) : Z := indexOfFrom 0 l x.

Definition byCategoryOrder (order : list string) (a b : Venue) : Q :=
  let aIndex := indexOf order (categoryName (category a)) in
  let bIndex := indexOf order (categoryName (category b)) in
  inject_Z ((if (aIndex =? -1)%Z then 999 else aIndex)
            - (if (bIndex =? -1)%Z then 999 else bIndex)).

Definition categoryBudgets (perPersonBudget : Q) : gmap string Q :=
  list_to_map
    [ ("dinner", perPersonBudget * (45 # 100));
      ("activity", perPersonBudget * (30 # 100));
      ("drinks", perPersonBudget * (15 # 100));
      ("dessert", perPersonBudget * (10 # 100));
      ("finish", perPersonBudget * (15 # 100));
      ("scenic", perPersonBudget * (5 # 100)) ].

Definition priceMultipliers : list Q :=
  [ 5 # 10; 75 # 100; 1; 13 # 10; 16 # 10 ].

Definition durations : gmap string Z :=
  list_to_map
    [ ("drinks", 45); ("activity", 90); ("dinner", 90);
      ("dessert", 30); ("finish", 60); ("scenic", 30) ]%Z.

(** [s.charAt(0).toUpperCase() + s.slice(1)]. *)
Definition capitalize (s : string) : string :=
  match s with
  | String c rest => String (Js.upperChar c) rest
  | EmptyString => EmptyString
  end.

(** What the loop over the sorted venues carries from stop to stop. *)
Record Walk := {
  w_stops : list Stop;
  currentTime : string;
  prevVenueId : option string;
  labelCounts : gmap string Z
}.

(** [if (prevVenueId)]: set, and not the empty string. *)
Definition truthy (s : option string) : option string :=
  match s with
  | Some EmptyString => None
  | _ => s
  end.

Definition estimateCost (perPersonBudget : Q) (numStops : Z) (v : Venue)
  : Z * Z :=
  let categoryBudget :=
    default (perPersonBudget / inject_Z numStops)
            (categoryBudgets perPersonBudget !! categoryName (category v)) in
  let priceLevel := default 2 (priceLevel v) in
  let priceMultiplier :=
    default 1 (asIndex priceLevel ≫= fun i => priceMultipliers !! i) in
  let baseCost := categoryBudget * priceMultiplier in
  (Js.round (baseCost * (8 # 10)), Js.round (baseCost * (12 # 10))).

Definition visit `{NumberFormat} (travelTimes : gmap string Z) (mode : Mode)
    (perPersonBudget : Q) (numStops : Z) (w : Walk) (v : Venue) : Walk :=
  let travelFromPrev :=
    match truthy (prevVenueId w) with
    | Some prev => default 10%Z (travelTimes !! (prev +:+ "->" +:+ placeId v))
    | None => 0%Z
    end in
  let currentTime :=
    match truthy (prevVenueId w) with
    | Some _ => addMinutes (currentTime w) travelFromPrev
    | None => currentTime w
    end in
  let baseLabel := capitalize (categoryName (category v)) in
  let count := (default 0 (labelCounts w !! baseLabel) + 1)%Z in
  let label :=
    if (1 <? count)%Z then baseLabel +:+ " " +:+ Js.toString count
    else baseLabel in
  {| w_stops :=
       (w_stops w ++
       [ {| time := currentTime;
            stop_label := label;
            stop_venue := v;
            estimatedCostRange := estimateCost perPersonBudget numStops v;
            whyItFits := "Great option with " +:+ ratingText v +:+ " rating";
            travelFromPrevMins := travelFromPrev;
            openCheck :=
              match mode with
              | verified => "Verified: Check hours in Maps"
              | standard => "Standard (confirm hours in Maps)"
              end |} ])%list;
     currentTime :=
       addMinutes currentTime
         (default 60%Z (durations !! categoryName (category v)));
     prevVenueId := Some (placeId v);
     labelCounts := <[baseLabel := count]> (labelCounts w) |}.

(** The defaults of the last three parameters (no family mode, budget 100,
    party of 2) are not modelled: every caller passes them. *)
Definition buildPlanFromVenues `{NumberFormat} (id : PlanId) (title : string)
    (venues backupVenues : list Venue) (startTime : string)
    (travelTimes : gmap string Z) (mode : Mode) (familyFriendly : bool)
    (budget partySize : Q) : Plan :=
  let uniqueVenues := uniqueFrom ∅ venues in
  let sortedVenues :=
    Js.sort (byCategoryOrder (categoryOrder familyFriendly)) uniqueVenues in
  let numStops :=
    match sortedVenues with
    | [] => 3%Z
    | _ => Z.of_nat (length sortedVenues)
    end in
  let perPersonBudget := budget / partySize in
  let w :=
    foldl (visit travelTimes mode perPersonBudget numStops)
          {| w_stops := []; currentTime := startTime;
             prevVenueId := None; labelCounts := ∅ |}
          sortedVenues in
  {| id := id; title := title; stops := w_stops w;
     plan_backups := map venueToBackup backupVenues |}.

(** ** The ranking node (src/src/agent/graph.ts) *)

(** The fields of the graph state that [rankCluster] reads; a field that is
    not set is [None]. *)
Record GraphState := {
  state_candidatePools : option (PerCategory (list Venue));
  state_budget : option Budget;
  state_partySize : option Q;
  state_preferences : option Preferences;
  state_skeleton : option Skeleton
}.

Definition DEFAULT_CANDIDATE_POOLS : PerCategory (list Venue) :=
  {| activity := []; dinner := []; finish := [] |}.

Definition DEFAULT_PREFERENCES : Preferences :=
  {| vibe := []; dietary := []; alcoholOk := true; walking := medium;
     indoorsPreferred := false; likes := []; familyFriendly := false |}.

(** The budget of each category: from the skeleton when there is one, a
    fixed share of the amount otherwise.  [rankCluster] and
    [selectFinalists] compute it with the same expression. *)
Definition budgetPerCategory (skeleton : option Skeleton) (budget : Budget)
  : PerCategory Q :=
  match skeleton with
  | Some sk =>
      {| activity := inject_Z (getBudgetForSlot sk "activity");
         dinner := inject_Z (getBudgetForSlot sk "dinner");
         finish := inject_Z (getBudgetForSlot sk "drinks"
                             + getBudgetForSlot sk "dessert") |}
  | None =>
      {| activity := amount budget * (25 # 100);
         dinner := amount budget * (5 # 10);
         finish := amount budget * (15 # 100) |}
  end.

(** The division by the party size; a party of 0, which the schema rules
    out, gives infinite budgets in the source and is not modelled. *)
Definition perPersonBudget (budgetPerCategory : PerCategory Q)
    (partySize : Q) : PerCategory Q :=
  {| activity := activity budgetPerCategory / partySize;
     dinner := dinner budgetPerCategory / partySize;
     finish := finish budgetPerCategory / partySize |}.

(** The update of the state: [None] is the empty update, [Some pools] the
    new candidate pools.  The log lines are left out. *)
Definition rankCluster `{Geodesy} (state : GraphState)
  : Outcome (option (PerCategory (list Venue))) :=
  let pools := default DEFAULT_CANDIDATE_POOLS (state_candidatePools state) in
  let budget :=
    default {| amount := 100; currency := "EUR" |} (state_budget state) in
  let partySize := default 2 (state_partySize state) in
  let preferences := default DEFAULT_PREFERENCES (state_preferences state) in
  let totalCandidates :=
    (length (activity pools) + length (dinner pools)
     + length (finish pools))%nat in
  if (totalCandidates =? 0)%nat then Returns None
  else
    let perPerson :=
      perPersonBudget (budgetPerCategory (state_skeleton state) budget)
                      partySize in
    rankedActivity ←
      rankVenues (activity pools) preferences (activity perPerson) None;
    rankedDinner ←
      rankVenues (dinner pools) preferences (dinner perPerson) None;
    rankedFinish ←
      rankVenues (finish pools) preferences (finish perPerson) None;
    Returns (Some {| activity := map venue rankedActivity;
                     dinner := map venue rankedDinner;
                     finish := map venue rankedFinish |}).

Local Close Scope Q_scope.

(** ** The template rule, in the words of the specification

    First rule that matches: amount below 80, amount above 250, start at
    or after 20:00, start at or after 14:00 with end at or before 18:00,
    window shorter than 180 minutes, otherwise the default. *)

Inductive Template := BUDGET | FANCY | LATE_START | AFTERNOON | SHORT | DEFAULT.

Definition templateRule (amount : Q) (startMins endMins window : Z)
  : Template :=
  if Js.ltb amount 80 then BUDGET
  else if Js.ltb 250 amount then FANCY
  else if (1200 <=? startMins)%Z then LATE_START
  else if (840 <=? startMins)%Z && (endMins <=? 1080)%Z then AFTERNOON
  else if (window <? 180)%Z then SHORT
  else DEFAULT.

(** The window length of the specification: (end - start) mod 1440. *)
Definition windowLength (startMins endMins : Z) : Z :=
  ((endMins - startMins) mod 1440)%Z.

(** The slot types and budget percents the specification lists. *)
Definition templateShape (t : Template) : list (SlotType * Z) :=
  match t with
  | BUDGET => [(Tscenic, 5); (Tactivity, 30); (Tdinner, 55); (Tdessert, 10)]
  | FANCY => [(Tdrinks, 12); (Tactivity, 28); (Tdinner, 50); (Tdrinks, 10)]
  | LATE_START => [(Tdinner, 55); (Tactivity, 25); (Tdrinks, 20)]
  | AFTERNOON => [(Tdrinks, 15); (Tactivity, 50); (Tdinner, 35)]
  | SHORT => [(Tactivity, 40); (Tdinner, 60)]
  | DEFAULT => [(Tdrinks, 15); (Tactivity, 25); (Tdinner, 50); (Tdessert, 10)]
  end%Z.

(** The template of the source that goes by each name. *)
Definition templateSlots (t : Template) (window : Z) : list SkeletonSlot :=
  match t with
  | BUDGET => BUDGET_TEMPLATE
  | FANCY => FANCY_TEMPLATE
  | LATE_START => LATE_START_TEMPLATE
  | AFTERNOON => AFTERNOON_TEMPLATE
  | SHORT => shortTemplate window
  | DEFAULT => DEFAULT_TEMPLATE
  end.

Definition shape (sl : list SkeletonSlot) : list (SlotType * Z) :=
  map (fun s => (type s, budgetPercent s)) sl.

(** ** Predicates of the statements *)

(** A well-formed "HH:MM": two digits, a colon, two digits, at most 23:59. *)
Definition wellFormedTime (s : string) : bool :=
  match s with
  | String h1 (String h2 (String c (String m1 (String m2 EmptyString)))) =>
      Js.isDigit h1 && Js.isDigit h2 && (Js.code c =? 58)%nat
      && Js.isDigit m1 && Js.isDigit m2
      && (10 * Js.digitValue h1 + Js.digitValue h2 <? 24)%Z
      && (10 * Js.digitValue m1 + Js.digitValue m2 <? 60)%Z
  | _ => false
  end.

(** The minutes the slots last together. *)
Definition sumDurations (sl : list SkeletonSlot) : Z :=
  foldr (fun s acc => (default 0 (durationMins s) + acc)%Z) 0%Z sl.

(** A list in non-decreasing order of a rank. *)
Definition ascendingBy {A : Type} (rank : A -> Q) : list A -> Prop :=
  StronglySorted (fun a b => (rank a <= rank b)%Q).

(** The elements whose rank is [q]. *)
Definition rankedAt {A : Type} (rank : A -> Q) (q : Q) (x : A) : bool :=
  Js.eqb (rank x) q.

(** A score between 0 and 1. *)
Definition unitInterval (q : Q) : Prop := (0 <= q <= 1)%Q.

(** A computed score between 0 and 1: a number, and one of that interval. *)
Definition inUnitInterval (x : Js.number) : Prop :=
  match x with
  | Js.finite q => unitInterval q
  | Js.NaN => False
  end.

(** Two numbers that are the same: equal rationals, or NaN both. *)
Definition sameNumber (x y : Js.number) : Prop :=
  match x, y with
  | Js.finite a, Js.finite b => (a == b)%Q
  | Js.NaN, Js.NaN => True
  | _, _ => False
  end.

(** The composite score as a rational, with 0 where it is NaN. *)
Definition scoreValue (sv : ScoredVenue) : Q :=
  match score sv with
  | Js.finite q => q
  | Js.NaN => 0
  end.

(** The comparator of the ranking on those rationals. *)
Definition byScoreValue (a b : ScoredVenue) : Q :=
  (scoreValue b - scoreValue a)%Q.

(** The scored venues whose composite score is the number [q]. *)
Definition scoreIs (q : Q) (sv : ScoredVenue) : bool :=
  match score sv with
  | Js.finite s => Js.eqb s q
  | Js.NaN => false
  end.

(** Scores in non-increasing order, read as weakly as can be: no number of
    the list is followed, at any distance, by a greater number.  A NaN
    is neither greater nor smaller than anything. *)
Definition nonIncreasing (l : list Js.number) : Prop :=
  forall (i j : nat) (x y : Q),
    (i < j)%nat ->
    l !! i = Some (Js.finite x) -> l !! j = Some (Js.finite y) ->
    (y <= x)%Q.

(** [clamp(x, lo, hi)] in the words of the specification. *)
Definition clamp (x lo hi : Q) : Q :=
  if Js.ltb x lo then lo else if Js.ltb hi x then hi else x.

(** A vibe tag whose lower-case form names a property that the keyword
    table inherits from [Object.prototype]. *)
Definition inheritedVibe (v : string) : bool :=
  match vibeKeywords (Js.toLowerCase v) with
  | Inherited => true
  | _ => false
  end.

(** The invariant of the clustering loops: the venues placed so far are
    venues of the input, no two of them share a placeId, and [assigned]
    holds exactly their placeIds. *)
Definition placed (venues members : list Venue) (assigned : gset string)
  : Prop :=
  NoDup (map placeId members) /\
  (forall i, i ∈ assigned <-> In i (map placeId members)) /\
  (forall v, In v members -> In v venues).

(** The placeId identifies the venue, as the data model has it. *)
Definition identifiedByPlaceId (venues : list Venue) : Prop :=
  forall v w, In v venues -> In w venues -> placeId v = placeId w -> v = w.

(** A cluster with a first venue, its seed, whose other venues are all
    within the radius of the seed. *)
Definition seededWithin `{Geodesy} (radius : Q) (cluster : list Venue)
  : Prop :=
  exists seed rest,
    cluster = seed :: rest /\
    Forall (fun o => Js.le (calculateDistance (location seed) (location o))
                           radius = true) rest.

(** One step of the sum in [calculateItineraryDistance]. *)
Definition leg `{Geodesy} (total : Js.number) (pair : Venue * Venue)
  : Js.number :=
  (total + calculateDistance (location pair.1) (location pair.2))%num.

(** The minute [m] of the day written as "HH:MM", digit by digit. *)
Definition digitChar (d : Z) : ascii := ascii_of_nat (48 + Z.to_nat d).
Definition clock (m : Z) : string :=
  String (digitChar (m / 600))
    (String (digitChar ((m / 60) mod 10))
       (String ":"
          (String (digitChar ((m mod 60) / 10))
             (String (digitChar (m mod 10)) EmptyString)))).

(** The minutes of a day. *)
Definition minutesOfDay : list Z := map Z.of_nat (seq 0 1440).

(** A slot that has a duration. *)
Definition timed (s : SkeletonSlot) : Prop := is_Some (durationMins s).

(** ** Sample data, for the examples below *)

Local Open Scope Q_scope.

(** A rational stand-in for the distance: metres along the grid of
    meridians and parallels, 111,195 m to the degree. *)
Definition gridDistance : Geodesy := fun a b =>
  Js.finite (111195 * (Qabs (lat a - lat b) + Qabs (lng a - lng b))).

Definition integerFormat : NumberFormat := fun q => Js.toString (Qfloor q).

Definition sampleVenue (n i : string) (la ln : Q) (level r reviews : option Q)
    (c : Category) : Venue :=
  {| name := n; placeId := i;
     mapsUrl := "https://www.google.com/maps/place/?q=place_id:" +:+ i;
     address := ""; location := {| lat := la; lng := ln |};
     priceLevel := level; rating := r; reviewCount := reviews;
     category := c |}.

Definition samplePreferences (vibes likes_ : list string) : Preferences :=
  {| vibe := vibes; dietary := []; alcoholOk := true; walking := medium;
     indoorsPreferred := false; likes := likes_; familyFriendly := false |}.

Definition wineBar : Venue :=
  sampleVenue "Cozy Wine Bar" "p1" 0 0 (Some 2%Q) (Some 5%Q) (Some 600%Q)
              Cdinner.
Definition bistro : Venue :=
  sampleVenue "Bistro" "p2" 0 (1 # 10000) None (Some (35 # 10)) (Some 10%Q)
              Cdinner.
Definition unrated : Venue :=
  sampleVenue "New Place" "p3" 0 0 None (Some 0%Q) None Cactivity.
Definition museum : Venue :=
  sampleVenue "City Museum" "p4" 0 (2 # 100) (Some 1%Q) (Some (45 # 10))
              (Some 120%Q) Cactivity.
Definition arcade : Venue :=
  sampleVenue "Arcade Hall" "p5" 0 1 (Some 1%Q) (Some (45 # 10))
              (Some 120%Q) Cactivity.
Definition lounge : Venue :=
  sampleVenue "Sky Lounge" "p6" 0 (3 # 1000) (Some 3%Q) (Some 4%Q)
              (Some 60%Q) Cfinish.

Definition evening : Budget := {| amount := 150; currency := "EUR" |}.

(** A venue at 12 N 0 E, and the point nearly opposite on the globe. *)
Definition outpost : Venue :=
  sampleVenue "Far Outpost" "p7" 12 0 (Some 1%Q) (Some (45 # 10))
              (Some 120%Q) Cactivity.
Definition antipode : Location := {| lat := -12; lng := -180 |}.

(** The same two points, on doubles. *)
Module SamplePoints.
Import PrimFloat.
Definition outpost : Binary64.Location :=
  {| Binary64.lat := 12%float; Binary64.lng := 0%float |}.
Definition antipode : Binary64.Location :=
  {| Binary64.lat := (-12)%float; Binary64.lng := (-180)%float |}.

(** An engine for the example: the sine and the cosine to the nearest
    double at the four angles that the distance between the two points
    asks for (24 and 180 degrees halved, 12 degrees and its opposite) and
    0 elsewhere; an arc tangent that is NaN on NaN and 0 elsewhere. *)
Definition engine : Math.Engine :=
  {| Math.sin := fun x =>
       if eqb x (-0x1.acee9f37bebd5p-3)%float
       then (-0x1.a9cd9ac4258f5p-3)%float
       else if eqb x (-0x1.921fb54442d18p+0)%float then (-1)%float
       else 0%float;
     Math.cos := fun x =>
       if eqb (abs x) 0x1.acee9f37bebd5p-3%float
       then 0x1.f4cfc327a008p-1%float
       else 0%float;
     Math.atan2 := fun y x =>
       if is_nan x || is_nan y then nan else 0%float |}.
End SamplePoints.

(** The grid distance, except that it is NaN from 12 N 0 E to 12 S 180 W,
    as the haversine of the source is on doubles. *)
Definition gridDistanceNaN : Geodesy := fun a b =>
  if Js.eqb (lat a) 12 && Js.eqb (lng a) 0
     && Js.eqb (lat b) (-12) && Js.eqb (lng b) (-180)
  then Js.NaN else gridDistance a b.

Local Close Scope Q_scope.

(** * Properties *)

Local Open Scope list_scope.

(** ** Rounding and comparisons *)

Lemma leb_le (x y : Q) : Js.leb x y = true <-> (x <= y)%Q.
Proof. apply Qle_bool_iff. Qed.

Lemma leb_gt (x y : Q) : Js.leb x y = false <-> (y < x)%Q.
Proof.
  unfold Js.leb. split; intros Hxy.
  - apply Qnot_le_lt. intros Hle. apply Qle_bool_iff in Hle. congruence.
  - destruct (Qle_bool x y) eqn:E; [|reflexivity].
    apply Qle_bool_iff in E. lra.
Qed.

Lemma ltb_lt (x y : Q) : Js.ltb x y = true <-> (x < y)%Q.
Proof.
  unfold Js.ltb. rewrite negb_true_iff. apply (leb_gt y x).
Qed.

Lemma ltb_ge (x y : Q) : Js.ltb x y = false <-> (y <= x)%Q.
Proof.
  unfold Js.ltb. rewrite negb_false_iff. apply (leb_le y x).
Qed.

Lemma eqb_eq (x y : Q) : Js.eqb x y = true <-> (x == y)%Q.
Proof. apply Qeq_bool_iff. Qed.

Lemma round_le (x : Q) : (inject_Z (Js.round x) <= x + (1 # 2))%Q.
Proof. apply Qfloor_le. Qed.

Lemma round_gt (x : Q) : (x - (1 # 2) < inject_Z (Js.round x))%Q.
Proof.
  unfold Js.round.
  pose proof (Qlt_floor (x + (1 # 2))) as Hlt.
  rewrite inject_Z_plus in Hlt. change (inject_Z 1) with 1%Q in Hlt. lra.
Qed.

Lemma round_mono (x y : Q) : (x <= y)%Q -> (Js.round x <= Js.round y)%Z.
Proof. intros Hxy. apply Qfloor_resp_le. lra. Qed.

(** ** The stable sort *)

Section SortFacts.
Context {A : Type} (cmp : A -> A -> Q).

Lemma insert_perm (x : A) (l : list A) : Js.insert cmp x l ≡ₚ x :: l.
Proof.
  induction l as [|y l IH]; simpl; [reflexivity|].
  destruct (Js.leb (cmp x y) 0); [reflexivity|].
  rewrite IH. apply perm_swap.
Qed.

Lemma sort_perm (l : list A) : Js.sort cmp l ≡ₚ l.
Proof.
  induction l as [|x l IH]; simpl; [reflexivity|].
  rewrite insert_perm. by rewrite IH.
Qed.

Lemma sort_length (l : list A) : length (Js.sort cmp l) = length l.
Proof. apply Permutation_length, sort_perm. Qed.

Lemma sort_singleton (x : A) : Js.sort cmp [x] = [x].
Proof. reflexivity. Qed.

(** The comparators of the engine are differences of a rank. *)
Variable rank : A -> Q.
Hypothesis cmp_rank : forall a b, (cmp a b == rank a - rank b)%Q.

Lemma insert_ascending (x : A) (l : list A) :
  ascendingBy rank l -> ascendingBy rank (Js.insert cmp x l).
Proof.
  induction 1 as [|y l Hl IH Hy]; simpl.
  - repeat constructor.
  - destruct (Js.leb (cmp x y) 0) eqn:E.
    + apply leb_le in E. rewrite cmp_rank in E.
      constructor; [by constructor|].
      constructor; [lra|].
      eapply Forall_impl; [exact Hy|]. simpl. intros z Hz. lra.
    + apply leb_gt in E. rewrite cmp_rank in E.
      constructor; [exact IH|].
      rewrite insert_perm. constructor; [lra|exact Hy].
Qed.

Lemma sort_ascending (l : list A) : ascendingBy rank (Js.sort cmp l).
Proof.
  induction l as [|x l IH]; simpl; [constructor|].
  by apply insert_ascending.
Qed.

Lemma insert_stable (q : Q) (x : A) (l : list A) :
  List.filter (rankedAt rank q) (Js.insert cmp x l)
  = List.filter (rankedAt rank q) (x :: l).
Proof.
  induction l as [|y l IH]; [reflexivity|].
  cbn [Js.insert].
  destruct (Js.leb (cmp x y) 0) eqn:E; [reflexivity|].
  apply leb_gt in E. rewrite cmp_rank in E.
  cbn [List.filter] in *. rewrite IH.
  destruct (rankedAt rank q x) eqn:Ex; [|reflexivity].
  destruct (rankedAt rank q y) eqn:Ey; [|reflexivity].
  apply eqb_eq in Ex, Ey. lra.
Qed.

(** Elements of equal rank keep the order they had. *)
Lemma sort_stable (q : Q) (l : list A) :
  List.filter (rankedAt rank q) (Js.sort cmp l)
  = List.filter (rankedAt rank q) l.
Proof.
  induction l as [|x l IH]; [reflexivity|].
  cbn [Js.sort foldr]. rewrite insert_stable.
  cbn [List.filter]. fold (Js.sort cmp l). by rewrite IH.
Qed.
End SortFacts.

(** ** Parsing a time of day *)

Ltac char_cases :=
  unfold Js.isDigit, Js.isBlank in *;
  repeat match goal with
         | H : context [(?a <=? ?b)%nat] |- _ => destruct (Nat.leb_spec a b)
         | H : context [(?a =? ?b)%nat] |- _ => destruct (Nat.eqb_spec a b)
         | |- context [(?a <=? ?b)%nat] => destruct (Nat.leb_spec a b)
         | |- context [(?a =? ?b)%nat] => destruct (Nat.eqb_spec a b)
         end;
  simpl in *; try congruence; try lia.

Lemma digit_not_colon (c : ascii) :
  Js.isDigit c = true -> (Js.code c =? Js.code ":")%nat = false.
Proof. change (Js.code ":") with 58%nat. char_cases. Qed.

Lemma digit_not_blank (c : ascii) :
  Js.isDigit c = true -> Js.isBlank c = false.
Proof. char_cases. Qed.

Lemma digit_not_sign (c : ascii) :
  Js.isDigit c = true ->
  (Js.code c =? 45)%nat = false /\ (Js.code c =? 43)%nat = false.
Proof. char_cases. Qed.

Lemma digitValue_range (c : ascii) :
  Js.isDigit c = true -> (0 <= Js.digitValue c <= 9)%Z.
Proof. unfold Js.digitValue. char_cases. Qed.

Lemma split_two_digits (a b : ascii) (rest : string) :
  Js.isDigit a = true -> Js.isDigit b = true ->
  Js.split ":" (String a (String b (String ":" rest)))
  = String a (String b EmptyString) :: Js.split ":" rest.
Proof.
  intros Ha Hb. cbn [Js.split].
  rewrite (digit_not_colon a Ha), (digit_not_colon b Hb).
  rewrite Nat.eqb_refl. reflexivity.
Qed.

Lemma split_last_two_digits (a b : ascii) :
  Js.isDigit a = true -> Js.isDigit b = true ->
  Js.split ":" (String a (String b EmptyString))
  = [String a (String b EmptyString)].
Proof.
  intros Ha Hb. cbn [Js.split].
  by rewrite (digit_not_colon a Ha), (digit_not_colon b Hb).
Qed.

Lemma parseInt_two_digits (a b : ascii) :
  Js.isDigit a = true -> Js.isDigit b = true ->
  Js.parseInt (String a (String b EmptyString))
  = Some (10 * Js.digitValue a + Js.digitValue b)%Z.
Proof.
  intros Ha Hb. unfold Js.parseInt. cbn [Js.skipBlanks].
  rewrite (digit_not_blank a Ha).
  destruct (digit_not_sign a Ha) as [-> ->].
  cbn [Js.digits default]. rewrite Ha, Hb. reflexivity.
Qed.

(** A well-formed time parses to its minute of the day. *)
Lemma parseTime_wellFormed (s : string) :
  wellFormedTime s = true ->
  exists t, parseTime s = Some t /\ (0 <= t < 1440)%Z.
Proof.
  destruct s as [|h1 [|h2 [|c [|m1 [|m2 [|? ?]]]]]]; try discriminate.
  cbn [wellFormedTime]. rewrite !andb_true_iff.
  intros [[[[[[H1 H2] Hc] H3] H4] Hh] Hm].
  apply Nat.eqb_eq in Hc. apply Z.ltb_lt in Hh, Hm.
  assert (c = ":"%char) as ->.
  { rewrite <- (ascii_nat_embedding c). unfold Js.code in Hc. by rewrite Hc. }
  exists ((10 * Js.digitValue h1 + Js.digitValue h2) * 60
          + (10 * Js.digitValue m1 + Js.digitValue m2))%Z.
  split.
  - unfold parseTime.
    rewrite (split_two_digits _ _ _ H1 H2), (split_last_two_digits _ _ H3 H4).
    change (default "0" ((?x :: ?l) !! 0%nat)) with x.
    change (default "0" ((?x :: ?y :: ?l) !! 1%nat)) with y.
    rewrite (parseInt_two_digits _ _ H1 H2), (parseInt_two_digits _ _ H3 H4).
    reflexivity.
  - pose proof (digitValue_range _ H1). pose proof (digitValue_range _ H2).
    pose proof (digitValue_range _ H3). pose proof (digitValue_range _ H4).
    lia.
Qed.

Lemma digitChar_of_digit (c : ascii) :
  Js.isDigit c = true -> digitChar (Js.digitValue c) = c.
Proof.
  intros Hc. unfold digitChar, Js.digitValue.
  rewrite Nat2Z.id. rewrite <- (ascii_nat_embedding c) at 2.
  f_equal. unfold Js.isDigit, Js.code in *.
  apply andb_true_iff in Hc as [Hlo _]. apply Nat.leb_le in Hlo. lia.
Qed.

(** A well-formed time is the clock reading of the minute it parses to. *)
Lemma wellFormedTime_clock (s : string) :
  wellFormedTime s = true ->
  exists m, (0 <= m < 1440)%Z /\ parseTime s = Some m /\ clock m = s.
Proof.
  intros Hs. pose proof Hs as Hwf.
  destruct s as [|h1 [|h2 [|c [|m1 [|m2 [|? ?]]]]]]; try discriminate.
  cbn [wellFormedTime] in Hs. rewrite !andb_true_iff in Hs.
  destruct Hs as [[[[[[H1 H2] Hc] H3] H4] Hh] Hm].
  apply Nat.eqb_eq in Hc. apply Z.ltb_lt in Hh, Hm.
  assert (c = ":"%char) as ->.
  { rewrite <- (ascii_nat_embedding c). unfold Js.code in Hc. by rewrite Hc. }
  pose proof (digitValue_range _ H1) as R1.
  pose proof (digitValue_range _ H2) as R2.
  pose proof (digitValue_range _ H3) as R3.
  pose proof (digitValue_range _ H4) as R4.
  set (d1 := Js.digitValue h1) in *. set (d2 := Js.digitValue h2) in *.
  set (d3 := Js.digitValue m1) in *. set (d4 := Js.digitValue m2) in *.
  exists ((10 * d1 + d2) * 60 + (10 * d3 + d4))%Z.
  split; [lia|]. split.
  - unfold parseTime.
    rewrite (split_two_digits _ _ _ H1 H2), (split_last_two_digits _ _ H3 H4).
    change (default "0" ((?x :: ?l) !! 0%nat)) with x.
    change (default "0" ((?x :: ?y :: ?l) !! 1%nat)) with y.
    by rewrite (parseInt_two_digits _ _ H1 H2), (parseInt_two_digits _ _ H3 H4).
  - unfold clock.
    replace (((10 * d1 + d2) * 60 + (10 * d3 + d4)) / 600)%Z with d1
      by (Z.to_euclidean_division_equations; lia).
    replace ((((10 * d1 + d2) * 60 + (10 * d3 + d4)) / 60) mod 10)%Z with d2
      by (Z.to_euclidean_division_equations; lia).
    replace ((((10 * d1 + d2) * 60 + (10 * d3 + d4)) mod 60) / 10)%Z with d3
      by (Z.to_euclidean_division_equations; lia).
    replace (((10 * d1 + d2) * 60 + (10 * d3 + d4)) mod 10)%Z with d4
      by (Z.to_euclidean_division_equations; lia).
    subst d1 d2 d3 d4. by rewrite !digitChar_of_digit.
Qed.

Lemma minutesOfDay_In (m : Z) : (0 <= m < 1440)%Z -> In m minutesOfDay.
Proof.
  intros Hm. unfold minutesOfDay. apply in_map_iff.
  exists (Z.to_nat m). split; [lia|]. apply in_seq. lia.
Qed.

Lemma clock_wellFormed_all :
  forallb (fun m => wellFormedTime (clock m)
                    && bool_decide (parseTime (clock m) = Some m))
          minutesOfDay = true.
Proof. vm_compute. reflexivity. Qed.

(** The clock reading tells the minute of the day. *)
Lemma clock_inj (a b : Z) :
  (0 <= a < 1440)%Z -> (0 <= b < 1440)%Z -> clock a = clock b -> a = b.
Proof.
  intros Ha Hb Hab.
  pose proof (proj1 (forallb_forall _ _) clock_wellFormed_all a
                (minutesOfDay_In a Ha)) as Hpa.
  pose proof (proj1 (forallb_forall _ _) clock_wellFormed_all b
                (minutesOfDay_In b Hb)) as Hpb.
  apply andb_true_iff in Hpa as [_ Hpa], Hpb as [_ Hpb].
  apply bool_decide_eq_true in Hpa, Hpb. congruence.
Qed.

Lemma windowMins_range (s e : Z) :
  (0 <= s < 1440)%Z -> (0 <= e < 1440)%Z ->
  (1 <= windowMins s e <= 1440)%Z.
Proof. unfold windowMins. destruct (Z.ltb_spec s e); lia. Qed.

(** The window of the code against the difference modulo a day: they agree
    unless the two times are equal, where the code takes a whole day. *)
Lemma windowMins_mod (s e : Z) :
  (0 <= s < 1440)%Z -> (0 <= e < 1440)%Z ->
  windowMins s e = (if (s =? e)%Z then 1440 else (e - s) mod 1440)%Z.
Proof.
  intros Hs He. unfold windowMins.
  destruct (Z.ltb_spec s e) as [Hlt|Hge].
  - destruct (Z.eqb_spec s e); [lia|].
    rewrite Z.mod_small; lia.
  - destruct (Z.eqb_spec s e) as [->|Hne]; [lia|].
    replace (e - s)%Z with ((1440 - s + e) + (-1) * 1440)%Z by lia.
    rewrite Z.mod_add by lia. rewrite Z.mod_small; lia.
Qed.

(** ** The skeleton builder *)

Lemma selectTemplate_wellFormed (b : Budget) (st en : string) :
  wellFormedTime st = true -> wellFormedTime en = true ->
  exists s e,
    parseTime st = Some s /\ parseTime en = Some e /\
    (0 <= s < 1440)%Z /\ (0 <= e < 1440)%Z /\
    selectTemplate b st en
    = Some (templateSlots (templateRule (amount b) s e (windowMins s e))
                          (windowMins s e)).
Proof.
  intros Hst Hen.
  destruct (parseTime_wellFormed st Hst) as (s & Hs & Hsr).
  destruct (parseTime_wellFormed en Hen) as (e & He & Her).
  exists s, e. repeat split; try assumption; try lia.
  unfold selectTemplate, templateRule. rewrite Hs, He. cbn [mbind option_bind].
  f_equal.
  change (20 * 60)%Z with 1200%Z. change (14 * 60)%Z with 840%Z.
  change (18 * 60)%Z with 1080%Z.
  repeat match goal with
         | |- context [if ?c then _ else _] => destruct c; try reflexivity
         end.
Qed.

Lemma shape_rescale (scale : Q) (sl : list SkeletonSlot) :
  shape (map (rescale scale) sl) = shape sl.
Proof. unfold shape. rewrite map_map. reflexivity. Qed.

Lemma shape_assignFrom (t : Z) (sl : list SkeletonSlot) :
  shape (assignFrom t sl) = shape sl.
Proof.
  revert t. induction sl as [|x sl IH]; intros t; [reflexivity|].
  cbn [assignFrom shape map]. f_equal. apply IH.
Qed.

Lemma length_assignFrom (t : Z) (sl : list SkeletonSlot) :
  length (assignFrom t sl) = length sl.
Proof.
  rewrite <- (length_map (fun s => (type s, budgetPercent s))
                         (assignFrom t sl)).
  fold (shape (assignFrom t sl)). rewrite shape_assignFrom.
  apply length_map.
Qed.

Lemma sumDurations_assignFrom (t : Z) (sl : list SkeletonSlot) :
  sumDurations (assignFrom t sl) = sumDurations sl.
Proof.
  revert t. induction sl as [|x sl IH]; intros t; [reflexivity|].
  cbn [assignFrom sumDurations foldr durationMins].
  fold (sumDurations (assignFrom (t + default 60%Z (durationMins x) + 10) sl)).
  rewrite IH. reflexivity.
Qed.

Lemma shape_templateSlots (t : Template) (w : Z) :
  shape (templateSlots t w) = templateShape t.
Proof. destruct t; reflexivity. Qed.

(** What [buildSkeleton] returns on well-formed times. *)
Lemma buildSkeleton_wellFormed (b : Budget) (st en : string) :
  wellFormedTime st = true -> wellFormedTime en = true ->
  exists s e,
    parseTime st = Some s /\ parseTime en = Some e /\
    (0 <= s < 1440)%Z /\ (0 <= e < 1440)%Z /\
    let w := windowMins s e in
    let T := templateSlots (templateRule (amount b) s e w) w in
    selectTemplate b st en = Some T /\
    buildSkeleton b st en
    = Some {| slots :=
                assignFrom s
                  (map (rescale (scaleFor w (totalTemplateMins T))) T);
              totalBudget := amount b;
              timeWindow := {| start := st; end_ := en |} |}.
Proof.
  intros Hst Hen.
  destruct (selectTemplate_wellFormed b st en Hst Hen)
    as (s & e & Hs & He & Hsr & Her & Hsel).
  exists s, e. repeat split; try assumption; try lia.
  unfold buildSkeleton. rewrite Hsel. cbn [mbind option_bind].
  unfold adjustDurations, assignTimes. rewrite Hs, He.
  reflexivity.
Qed.

Lemma foldl_sum {X : Type} (f : X -> Z) (l : list X) (a : Z) :
  foldl (fun sum x => (sum + f x)%Z) a l
  = (a + foldr (fun x acc => (f x + acc)%Z) 0%Z l)%Z.
Proof.
  revert a. induction l as [|x l IH]; intros a; cbn [foldl foldr]; [lia|].
  rewrite IH. lia.
Qed.

Lemma totalTemplateMins_sum (sl : list SkeletonSlot) :
  totalTemplateMins sl = sumDurations sl.
Proof.
  unfold totalTemplateMins, sumDurations.
  rewrite (foldl_sum (fun s => default 0%Z (durationMins s))). lia.
Qed.

(** Rounding moves each slot by at most half a minute. *)
Lemma rescale_sum (scale : Q) (sl : list SkeletonSlot) :
  Forall timed sl ->
  let exact := (inject_Z (sumDurations sl) * scale)%Q in
  let half := (inject_Z (Z.of_nat (length sl)) * (1 # 2))%Q in
  (exact - half <= inject_Z (sumDurations (map (rescale scale) sl)))%Q /\
  (inject_Z (sumDurations (map (rescale scale) sl)) <= exact + half)%Q.
Proof.
  induction 1 as [|x sl [d Hd] _ IH]; cbn zeta in *.
  - cbn [map sumDurations foldr length].
    change (inject_Z (Z.of_nat 0)) with 0%Q. change (inject_Z 0) with 0%Q.
    lra.
  - cbn [map sumDurations foldr length rescale durationMins default].
    fold (sumDurations (map (rescale scale) sl)). fold (sumDurations sl).
    rewrite Hd. cbn [default].
    rewrite Nat2Z.inj_succ, <- Z.add_1_r, !inject_Z_plus.
    change (inject_Z 1) with 1%Q.
    pose proof (round_le (inject_Z d * scale)).
    pose proof (round_gt (inject_Z d * scale)).
    destruct IH as [IH1 IH2]. unfold Datatypes.id. split; lra.
Qed.

Lemma rescale_window (w : Z) (sl : list SkeletonSlot) :
  Forall timed sl -> (0 < sumDurations sl)%Z ->
  (Z.abs (sumDurations (map (rescale (scaleFor w (totalTemplateMins sl))) sl)
          - w) <= Z.of_nat (length sl))%Z.
Proof.
  intros Ht Hpos. rewrite totalTemplateMins_sum.
  unfold scaleFor. destruct (Z.ltb_spec 0 (sumDurations sl)); [|lia].
  destruct (rescale_sum (inject_Z w / inject_Z (sumDurations sl)) sl Ht)
    as [Hlo Hhi].
  cbn zeta in Hlo, Hhi.
  assert (inject_Z (sumDurations sl)
          * (inject_Z w / inject_Z (sumDurations sl)) == inject_Z w)%Q as Hw.
  { field. intros H0.
    assert (inject_Z 0 < inject_Z (sumDurations sl))%Q as Hlt
      by (rewrite <- Zlt_Qlt; lia).
    change (inject_Z 0) with 0%Q in Hlt. lra. }
  rewrite Hw in Hlo, Hhi.
  set (n := length sl) in *.
  set (total := sumDurations (map _ sl)) in *.
  assert (0 <= inject_Z (Z.of_nat n))%Q as Hn.
  { change 0%Q with (inject_Z 0). rewrite <- Zle_Qle. lia. }
  assert (inject_Z total <= inject_Z (w + Z.of_nat n))%Q as H1.
  { rewrite inject_Z_plus. lra. }
  assert (inject_Z (w - Z.of_nat n) <= inject_Z total)%Q as H2.
  { unfold Z.sub. rewrite inject_Z_plus, inject_Z_opp. lra. }
  rewrite <- Zle_Qle in H1, H2. lia.
Qed.

Lemma templateSlots_timed (t : Template) (w : Z) :
  Forall timed (templateSlots t w).
Proof. destruct t; repeat constructor; by eexists. Qed.

Lemma floor_tenths (w k : Z) :
  Js.floor (inject_Z w * (k # 10)) = (w * k / 10)%Z.
Proof. reflexivity. Qed.

Lemma shortTemplate_sum (w : Z) :
  sumDurations (shortTemplate w) = (w * 4 / 10 + w * 6 / 10)%Z.
Proof.
  unfold shortTemplate, sumDurations. cbn [foldr slot durationMins default].
  rewrite !floor_tenths. unfold Datatypes.id. lia.
Qed.

(** The durations of a built skeleton against the window of the code. *)
Lemma templateSlots_window (t : Template) (w : Z) :
  (1 <= w)%Z ->
  let T := templateSlots t w in
  (Z.abs (sumDurations (map (rescale (scaleFor w (totalTemplateMins T))) T)
          - w) <= Z.of_nat (length T))%Z.
Proof.
  intros Hw T.
  destruct (Z.ltb_spec 0 (sumDurations T)) as [Hpos|Hzero].
  - apply rescale_window; [apply templateSlots_timed|exact Hpos].
  - destruct t; try (exfalso; revert Hzero; vm_compute; congruence).
    subst T. cbn [templateSlots] in *.
    rewrite shortTemplate_sum in Hzero.
    assert (w = 1)%Z as -> by (Z.to_euclidean_division_equations; lia).
    vm_compute. congruence.
Qed.

Lemma totalPercent_shape (sk : Skeleton) :
  totalPercent sk = foldr Z.add 0%Z (map snd (shape (slots sk))).
Proof.
  unfold totalPercent, shape. rewrite (foldl_sum budgetPercent).
  induction (slots sk) as [|x l IH]; [reflexivity|].
  cbn [foldr map snd]. lia.
Qed.

Lemma templateShape_percent (t : Template) :
  foldr Z.add 0%Z (map snd (templateShape t)) = 100%Z.
Proof. destruct t; reflexivity. Qed.

(** C2, as the code has it.  On well-formed HH:MM times, read digit by
    digit as the minutes [s] and [e] of the day, [selectTemplate] returns
    the template the rule of the specification names (first match of:
    amount below 80, amount above 250, start at or after 20:00, start at
    or after 14:00 with end at or before 18:00, window under 180 minutes,
    else default), the skeleton [buildSkeleton] returns has the slot types
    and budget percents listed for that template, and an amount of 70
    gives the budget template whatever the times.  The window of the fifth
    rule is (end - start) mod 1440 when the two times differ and a whole
    day, 1440 minutes, when they are equal.  The amount need not even be
    positive. *)
Theorem buildSkeleton_follows_template_rule (b : Budget) (st en : string) :
  wellFormedTime st = true -> wellFormedTime en = true ->
  exists s e sk,
    clock s = st /\ clock e = en /\
    (0 <= s < 1440)%Z /\ (0 <= e < 1440)%Z /\
    let window := (if (s =? e)%Z then 1440 else windowLength s e)%Z in
    let t := templateRule (amount b) s e window in
    selectTemplate b st en = Some (templateSlots t window) /\
    buildSkeleton b st en = Some sk /\
    shape (slots sk) = templateShape t /\
    ((amount b == 70)%Q ->
     selectTemplate b st en = Some BUDGET_TEMPLATE /\
     shape (slots sk)
     = [(Tscenic, 5); (Tactivity, 30); (Tdinner, 55); (Tdessert, 10)]%Z).
Proof.
  intros Hst Hen.
  destruct (buildSkeleton_wellFormed b st en Hst Hen)
    as (s & e & Hs & He & Hsr & Her & Hsel & Hbuild).
  destruct (wellFormedTime_clock st Hst) as (s' & _ & Hs' & Hcs).
  destruct (wellFormedTime_clock en Hen) as (e' & _ & He' & Hce).
  assert (s' = s) as -> by congruence.
  assert (e' = e) as -> by congruence.
  eexists s, e, _. cbn zeta. unfold windowLength.
  rewrite <- (windowMins_mod s e Hsr Her).
  split; [exact Hcs|]. split; [exact Hce|].
  split; [exact Hsr|]. split; [exact Her|].
  split; [exact Hsel|]. split; [exact Hbuild|].
  cbn [slots]. rewrite shape_assignFrom, shape_rescale, shape_templateSlots.
  split; [reflexivity|].
  intros H70. rewrite Hsel.
  assert (templateRule (amount b) s e (windowMins s e) = BUDGET) as ->.
  { unfold templateRule.
    destruct (Js.ltb (amount b) 80) eqn:E; [reflexivity|].
    apply ltb_ge in E. lra. }
  split; reflexivity.
Qed.

Lemma buildSkeleton_follows_template_rule_witness :
  wellFormedTime "18:00" = true /\ wellFormedTime "20:00" = true /\
  clock 1080 = "18:00" /\ clock 1200 = "20:00" /\
  windowLength 1080 1200 = 120%Z /\
  templateRule (amount evening) 1080 1200 120 = SHORT /\
  exists sk,
    buildSkeleton evening "18:00" "20:00" = Some sk /\
    shape (slots sk) = [(Tactivity, 40); (Tdinner, 60)]%Z.
Proof.
  split; [reflexivity|]. split; [reflexivity|].
  split; [reflexivity|]. split; [reflexivity|].
  split; [reflexivity|]. split; [reflexivity|].
  destruct (buildSkeleton_follows_template_rule evening "18:00" "20:00"
              eq_refl eq_refl)
    as (s & e & sk & Hs & He & Hsr & Her & _ & Hbuild & Hshape & _).
  exists sk. split; [exact Hbuild|].
  rewrite Hshape.
  assert (s = 1080%Z) as -> by (apply clock_inj; [exact Hsr|lia|exact Hs]).
  assert (e = 1200%Z) as -> by (apply clock_inj; [exact Her|lia|exact He]).
  reflexivity.
Defined.

(** C2 as stated fails when the two times are equal: from 10:00 to 10:00,
    with 150 EUR, the window of the specification is 0 minutes and its
    rule names the two-slot template, while [selectTemplate] takes the
    window for a whole day and returns the default template of four
    slots. *)
Lemma selectTemplate_equal_times_take_default :
  wellFormedTime "10:00" = true /\ clock 600 = "10:00" /\
  (0 < amount evening)%Q /\
  windowLength 600 600 = 0%Z /\
  templateRule (amount evening) 600 600 (windowLength 600 600) = SHORT /\
  selectTemplate evening "10:00" "10:00" = Some DEFAULT_TEMPLATE /\
  ~ (exists sk,
       buildSkeleton evening "10:00" "10:00" = Some sk /\
       shape (slots sk)
       = templateShape (templateRule (amount evening) 600 600
                          (windowLength 600 600))).
Proof.
  split; [reflexivity|]. split; [reflexivity|]. split; [reflexivity|].
  split; [reflexivity|]. split; [reflexivity|]. split; [reflexivity|].
  intros (sk & Hbuild & Hshape).
  vm_compute in Hbuild. injection Hbuild as <-.
  vm_compute in Hshape. discriminate.
Qed.

(** The four template scenarios of the specification. *)
Example selectTemplate_scenarios :
  selectTemplate {| amount := 70; currency := "EUR" |} "18:00" "23:30"
  = Some BUDGET_TEMPLATE /\
  selectTemplate {| amount := 300; currency := "EUR" |} "18:00" "23:30"
  = Some FANCY_TEMPLATE /\
  selectTemplate evening "21:00" "23:30" = Some LATE_START_TEMPLATE /\
  selectTemplate evening "15:00" "17:30" = Some AFTERNOON_TEMPLATE /\
  selectTemplate evening "18:00" "20:00" = Some (shortTemplate 120) /\
  selectTemplate evening "18:00" "23:30" = Some DEFAULT_TEMPLATE.
Proof. repeat split; reflexivity. Qed.

(** C6, as the code has it.  On well-formed HH:MM times the skeleton that
    [buildSkeleton] returns passes [validateSkeleton], its budget percents
    sum to a number in [95,105], and its slot durations sum to the window
    within the number of slots, where the window is (end - start) mod 1440
    when the two times differ and a whole day, 1440 minutes, when they are
    equal. *)
Theorem buildSkeleton_percent_and_window (b : Budget) (st en : string) :
  wellFormedTime st = true -> wellFormedTime en = true ->
  exists s e sk,
    parseTime st = Some s /\ parseTime en = Some e /\
    buildSkeleton b st en = Some sk /\
    validateSkeleton sk = true /\
    (95 <= totalPercent sk <= 105)%Z /\
    let window := (if (s =? e)%Z then 1440 else (e - s) mod 1440)%Z in
    (Z.abs (sumDurations (slots sk) - window)
     <= Z.of_nat (length (slots sk)))%Z.
Proof.
  intros Hst Hen.
  destruct (buildSkeleton_wellFormed b st en Hst Hen)
    as (s & e & Hs & He & Hsr & Her & _ & Hbuild).
  eexists s, e, _. cbn zeta.
  split; [exact Hs|]. split; [exact He|]. split; [exact Hbuild|].
  set (w := windowMins s e) in *.
  set (t := templateRule (amount b) s e w) in *.
  match goal with |- validateSkeleton ?sk = true /\ _ => set (built := sk) end.
  assert (totalPercent built = 100%Z) as Hp.
  { rewrite totalPercent_shape. subst built. cbn [slots].
    rewrite shape_assignFrom, shape_rescale, shape_templateSlots.
    apply templateShape_percent. }
  split; [unfold validateSkeleton; by rewrite Hp|].
  split; [lia|].
  subst built. cbn [slots].
  rewrite sumDurations_assignFrom, length_assignFrom, length_map.
  rewrite <- (windowMins_mod s e Hsr Her). fold w.
  apply templateSlots_window.
  pose proof (windowMins_range s e Hsr Her). subst w. lia.
Qed.

Lemma buildSkeleton_percent_and_window_witness :
  wellFormedTime "22:00" = true /\ wellFormedTime "01:30" = true /\
  exists sk,
    buildSkeleton evening "22:00" "01:30" = Some sk /\
    (95 <= totalPercent sk <= 105)%Z /\
    (Z.abs (sumDurations (slots sk) - 210) <= Z.of_nat (length (slots sk)))%Z.
Proof.
  split; [reflexivity|]. split; [reflexivity|].
  destruct (buildSkeleton_percent_and_window evening "22:00" "01:30"
              eq_refl eq_refl)
    as (s & e & sk & Hs & He & Hbuild & _ & Hp & Hw).
  exists sk. split; [exact Hbuild|]. split; [exact Hp|].
  injection Hs as <-. injection He as <-. exact Hw.
Defined.

(** C6 as stated fails when the two times are equal: from 18:00 to 18:00
    the difference modulo a day is 0, and the three slots of the skeleton
    last a whole day together. *)
Lemma buildSkeleton_equal_times_fill_a_day :
  wellFormedTime "18:00" = true /\
  parseTime "18:00" = Some 1080%Z /\
  exists sk,
    buildSkeleton evening "18:00" "18:00" = Some sk /\
    length (slots sk) = 3%nat /\
    sumDurations (slots sk) = 1440%Z /\
    ~ (Z.abs (sumDurations (slots sk) - (1080 - 1080) mod 1440)
       <= Z.of_nat (length (slots sk)))%Z.
Proof.
  split; [reflexivity|]. split; [reflexivity|].
  eexists. split; [vm_compute; reflexivity|].
  split; [reflexivity|]. split; [reflexivity|].
  vm_compute. intros H. apply H. reflexivity.
Qed.

(** ** The component scores *)

(** Division by a numeral, as the multiplication [lra] understands. *)
Ltac by_constant c :=
  unfold Qdiv in *;
  let inverse := eval vm_compute in (/ c)%Q in
  change (/ c)%Q with inverse in *.

Lemma scoreRating_range (v : Venue) : unitInterval (scoreRating v).
Proof.
  unfold unitInterval, scoreRating.
  destruct (rating v) as [r|]; [|lra].
  destruct (Js.eqb r 0); [lra|].
  split; [apply Q.le_max_l|].
  apply Q.max_lub; [lra|apply Q.le_min_l].
Qed.

(** What [scoreRating] computes, case by case. *)
Lemma scoreRating_cases (v : Venue) :
  match rating v with
  | None => (scoreRating v == 1 # 2)%Q
  | Some r =>
      if Js.eqb r 0 then (scoreRating v == 1 # 2)%Q
      else (scoreRating v == clamp ((r - 3) / 2) 0 1)%Q
  end.
Proof.
  unfold scoreRating. destruct (rating v) as [r|]; [|reflexivity].
  destruct (Js.eqb r 0); [reflexivity|].
  unfold clamp.
  destruct (Js.ltb ((r - 3) / 2) 0) eqn:E0.
  - apply ltb_lt in E0. rewrite Q.max_l; [reflexivity|].
    eapply Qle_trans; [apply Q.le_min_r|]. lra.
  - apply ltb_ge in E0.
    destruct (Js.ltb 1 ((r - 3) / 2)) eqn:E1.
    + apply ltb_lt in E1. rewrite Q.min_l by lra. rewrite Q.max_r; lra.
    + apply ltb_ge in E1. rewrite Q.min_r by lra. rewrite Q.max_r; lra.
Qed.

(** What [scoreProximity] makes of the distance: a score between 0 and 1
    of a number, and NaN of NaN. *)
Lemma scoreProximity_cases `{Geodesy} (v : Venue) (reference : Location) :
  match calculateDistance (location v) reference with
  | Js.finite d =>
      exists p, scoreProximity v reference = Js.finite p /\ unitInterval p
  | Js.NaN => scoreProximity v reference = Js.NaN
  end.
Proof.
  unfold unitInterval, scoreProximity.
  destruct (calculateDistance (location v) reference) as [d|];
    [|reflexivity].
  cbn [Js.le Js.ge].
  destruct (Js.leb d 500) eqn:E1; [eexists; split; [reflexivity|lra]|].
  apply leb_gt in E1.
  destruct (Js.leb 5000 d) eqn:E2; [eexists; split; [reflexivity|lra]|].
  apply leb_gt in E2.
  eexists. split; [reflexivity|].
  by_constant 4500%Q. lra.
Qed.

Lemma scoreProximity_range `{Geodesy} (v : Venue) (reference : Location)
    (d : Q) :
  calculateDistance (location v) reference = Js.finite d ->
  inUnitInterval (scoreProximity v reference).
Proof.
  intros Hd. pose proof (scoreProximity_cases v reference) as Hcases.
  rewrite Hd in Hcases. destruct Hcases as (p & -> & Hp). exact Hp.
Qed.

Lemma scoreProximity_NaN `{Geodesy} (v : Venue) (reference : Location) :
  calculateDistance (location v) reference = Js.NaN ->
  scoreProximity v reference = Js.NaN.
Proof.
  intros Hd. pose proof (scoreProximity_cases v reference) as Hcases.
  by rewrite Hd in Hcases.
Qed.

Lemma scorePriceMatch_range (v : Venue) (target : Q) :
  unitInterval (scorePriceMatch v target).
Proof.
  unfold unitInterval, scorePriceMatch.
  destruct (priceLevel v) as [level|]; [|lra].
  destruct (asIndex level ≫= _) as [[lo hi]|]; [|lra].
  destruct (_ && _); [lra|].
  destruct (Js.ltb target lo) eqn:E; [|lra].
  apply ltb_lt in E. by_constant 50%Q. split.
  - eapply Qle_trans; [|apply Q.le_max_l]. lra.
  - apply Q.max_lub; lra.
Qed.

Lemma scoreReviewCount_range (v : Venue) : unitInterval (scoreReviewCount v).
Proof.
  unfold unitInterval, scoreReviewCount.
  destruct (reviewCount v) as [n|]; [|lra].
  repeat match goal with
         | |- context [if ?c then _ else _] => destruct c; try lra
         end.
Qed.

Lemma foldl_boost {X : Type} (f : Q -> X -> Q) (l : list X) (a : Q) :
  (forall s x, (s <= f s x)%Q) -> (a <= foldl f a l)%Q.
Proof.
  intros Hf. revert a. induction l as [|x l IH]; intros a; cbn [foldl].
  - lra.
  - eapply Qle_trans; [apply (Hf a x)|apply IH].
Qed.

Lemma boostLike_le (n c : string) (s : Q) (like : string) :
  (s <= boostLike n c s like)%Q.
Proof. unfold boostLike. destruct (_ || _); lra. Qed.

Lemma boostKeyword_le (n : string) (s : Q) (k : string) :
  (s <= boostKeyword n s k)%Q.
Proof. unfold boostKeyword. destruct (Js.includes n k); lra. Qed.

Lemma boostVibes_le (n : string) (vibes : list string) (s s' : Q) :
  boostVibes n vibes s = Returns s' -> (s <= s')%Q.
Proof.
  revert s. induction vibes as [|v vibes IH]; intros s; cbn [boostVibes].
  - intros [= <-]. lra.
  - destruct (keywordsOf v) as [ks|]; [|discriminate].
    cbn [mbind Outcome_bind]. intros Hs'. apply IH in Hs'.
    eapply Qle_trans; [|exact Hs'].
    apply foldl_boost. apply boostKeyword_le.
Qed.

(** The score returned is the boosted base, capped. *)
Lemma scorePreferenceMatch_raw (v : Venue) (p : Preferences) (s : Q) :
  scorePreferenceMatch v p = Returns s ->
  exists raw, (1 # 2 <= raw)%Q /\ s = Qmin 1 raw.
Proof.
  unfold scorePreferenceMatch.
  destruct (boostVibes _ _ _) as [raw|] eqn:E; [|discriminate].
  cbn [mbind Outcome_bind]. intros [= <-].
  exists raw. split; [|reflexivity].
  apply boostVibes_le in E.
  eapply Qle_trans; [|exact E]. apply foldl_boost. apply boostLike_le.
Qed.

Lemma scorePreferenceMatch_range (v : Venue) (p : Preferences) (s : Q) :
  scorePreferenceMatch v p = Returns s -> (1 # 2 <= s <= 1)%Q.
Proof.
  intros (raw & Hraw & ->)%scorePreferenceMatch_raw.
  split; [apply Q.min_glb; lra|apply Q.le_min_l].
Qed.

(** [scorePreferenceMatch] throws exactly when a vibe tag is inherited. *)
Lemma boostVibes_returns (n : string) (vibes : list string) (s : Q) :
  forallb (fun v => negb (inheritedVibe v)) vibes = true ->
  exists s', boostVibes n (map Js.toLowerCase vibes) s = Returns s'.
Proof.
  revert s. induction vibes as [|v vibes IH]; intros s; cbn [forallb map].
  - by eexists.
  - rewrite andb_true_iff, negb_true_iff. intros [Hv Hrest].
    cbn [boostVibes]. unfold keywordsOf. unfold inheritedVibe in Hv.
    destruct (vibeKeywords (Js.toLowerCase v)); try discriminate;
      cbn [mbind Outcome_bind]; by apply IH.
Qed.

Lemma boostVibes_throws (n : string) (vibes : list string) (s : Q) :
  forallb (fun v => negb (inheritedVibe v)) vibes = false ->
  boostVibes n (map Js.toLowerCase vibes) s
  = Throws (TypeError "keywords is not iterable").
Proof.
  revert s. induction vibes as [|v vibes IH]; intros s; cbn [forallb map];
    [discriminate|].
  cbn [boostVibes]. unfold keywordsOf, inheritedVibe.
  destruct (vibeKeywords (Js.toLowerCase v)); cbn [negb andb];
    cbn [mbind Outcome_bind]; try apply IH; reflexivity.
Qed.

Lemma scorePreferenceMatch_returns (v : Venue) (p : Preferences) :
  forallb (fun v => negb (inheritedVibe v)) (vibe p) = true ->
  exists s, scorePreferenceMatch v p = Returns s.
Proof.
  intros Hp. unfold scorePreferenceMatch.
  edestruct boostVibes_returns as [s' ->]; [exact Hp|].
  by eexists.
Qed.

Lemma scorePreferenceMatch_throws (v : Venue) (p : Preferences) :
  forallb (fun v => negb (inheritedVibe v)) (vibe p) = false ->
  scorePreferenceMatch v p = Throws (TypeError "keywords is not iterable").
Proof.
  intros Hp. unfold scorePreferenceMatch.
  by rewrite boostVibes_throws.
Qed.

(** The composite of five numbers is their weighted sum. *)
Lemma totalScore_finite (s : Scores) (p : Q) :
  s_proximity s = Js.finite p ->
  totalScore s
  = Js.finite (s_rating s * (30 # 100) + p * (25 # 100)
               + s_priceMatch s * (20 # 100)
               + s_preferenceMatch s * (15 # 100)
               + s_reviewCount s * (10 # 100))%Q.
Proof. intros Hp. unfold totalScore. rewrite Hp. reflexivity. Qed.

(** The composite of a NaN proximity is NaN. *)
Lemma totalScore_NaN (s : Scores) :
  s_proximity s = Js.NaN -> totalScore s = Js.NaN.
Proof. intros Hp. unfold totalScore. rewrite Hp. reflexivity. Qed.

Lemma totalScore_range (s : Scores) :
  unitInterval (s_rating s) -> inUnitInterval (s_proximity s) ->
  unitInterval (s_priceMatch s) -> unitInterval (s_preferenceMatch s) ->
  unitInterval (s_reviewCount s) -> inUnitInterval (totalScore s).
Proof.
  intros Hr Hp. destruct (s_proximity s) as [p|] eqn:E; [|destruct Hp].
  rewrite (totalScore_finite s p E).
  unfold inUnitInterval, unitInterval in *. intros. lra.
Qed.

(** ** The distance on doubles *)

Module Doubles.
Import PrimFloat.
Local Open Scope float_scope.

(** From 12 N 0 E to 12 S 180 W the haversine of the source is NaN.  The
    halved differences are -0.20943951023931953 and -1.5707963267948966
    radians and the latitudes 0.20943951023931953 and its opposite; with
    the sine and the cosine to the nearest double there
    (-0.2079116908177593, -1 and 0.9781476007338057) the term [a] comes to
    1.0000000000000002, the square root of [1 - a] is NaN, and so are the
    arc tangent of it and the distance. *)
Lemma calculateDistance_NaN `{Math.Engine} :
  Math.sin (-0x1.acee9f37bebd5p-3) = -0x1.a9cd9ac4258f5p-3 ->
  Math.sin (-0x1.921fb54442d18p+0) = -1 ->
  Math.cos 0x1.acee9f37bebd5p-3 = 0x1.f4cfc327a008p-1 ->
  Math.cos (-0x1.acee9f37bebd5p-3) = 0x1.f4cfc327a008p-1 ->
  (forall y, Math.atan2 y nan = nan) ->
  Binary64.calculateDistance SamplePoints.outpost SamplePoints.antipode
  = nan.
Proof.
  intros Hsin Hsin' Hcos Hcos' Hatan. unfold Binary64.calculateDistance.
  cbn [Binary64.lat Binary64.lng SamplePoints.outpost SamplePoints.antipode].
  change (((-12 - 12) * Math.PI / 180) / 2) with (-0x1.acee9f37bebd5p-3).
  change (((-180 - 0) * Math.PI / 180) / 2) with (-0x1.921fb54442d18p+0).
  change (12 * Math.PI / 180) with 0x1.acee9f37bebd5p-3.
  change (-12 * Math.PI / 180) with (-0x1.acee9f37bebd5p-3).
  rewrite Hsin, Hsin', Hcos, Hcos'.
  change (-0x1.a9cd9ac4258f5p-3 * -0x1.a9cd9ac4258f5p-3
          + 0x1.f4cfc327a008p-1 * 0x1.f4cfc327a008p-1 * -1 * -1)
    with 0x1.0000000000001p+0.
  change (Math.sqrt (1 - 0x1.0000000000001p+0)) with nan.
  rewrite Hatan. reflexivity.
Qed.

Lemma calculateDistance_NaN_witness :
  @Binary64.calculateDistance SamplePoints.engine
    SamplePoints.outpost SamplePoints.antipode = nan.
Proof.
  apply (@calculateDistance_NaN SamplePoints.engine); reflexivity.
Defined.

End Doubles.

(** ** The ranking *)

Lemma mapM_Returns {X Y : Type} (f : X -> Outcome Y) (l : list X)
    (r : list Y) :
  mapM f l = Returns r <-> Forall2 (fun x y => f x = Returns y) l r.
Proof.
  revert r. induction l as [|x l IH]; intros r; cbn [mapM].
  - split.
    + intros [= <-]. constructor.
    + intros Hr. by inversion Hr.
  - split.
    + destruct (f x) as [y|] eqn:Ey; [|discriminate].
      cbn [mbind Outcome_bind].
      destruct (mapM f l) as [k|] eqn:Ek; [|discriminate].
      cbn [mbind Outcome_bind]. intros [= <-].
      constructor; [exact Ey|]. by apply IH.
    + intros Hr. inversion Hr as [|? y ? k Hy Hk]; subst.
      rewrite Hy. cbn [mbind Outcome_bind].
      apply IH in Hk. rewrite Hk. reflexivity.
Qed.

Lemma mapM_cons {X Y : Type} (f : X -> Outcome Y) (x : X) (l : list X) :
  mapM f (x :: l) = y ← f x; k ← mapM f l; mret (y :: k).
Proof. reflexivity. Qed.

Section Ranking.
Context `{Geodesy}.
Variables (preferences : Preferences) (target : Q).

Lemma scoreVenue_returns (reference : Location) (v : Venue) :
  forallb (fun v => negb (inheritedVibe v)) (vibe preferences) = true ->
  exists sv, scoreVenue preferences target reference v = Returns sv.
Proof.
  intros Hp. unfold scoreVenue.
  destruct (scorePreferenceMatch_returns v preferences Hp) as [s ->].
  by eexists.
Qed.

Lemma scoreVenue_throws (reference : Location) (v : Venue) :
  forallb (fun v => negb (inheritedVibe v)) (vibe preferences) = false ->
  scoreVenue preferences target reference v
  = Throws (TypeError "keywords is not iterable").
Proof.
  intros Hp. unfold scoreVenue.
  by rewrite scorePreferenceMatch_throws.
Qed.

Lemma scoreVenue_Returns (reference : Location) (v : Venue)
    (sv : ScoredVenue) :
  scoreVenue preferences target reference v = Returns sv ->
  venue sv = v /\
  (s_rating (scores sv) == scoreRating v)%Q /\
  s_proximity (scores sv) = scoreProximity v reference /\
  (s_priceMatch (scores sv) == scorePriceMatch v target)%Q /\
  scorePreferenceMatch v preferences
  = Returns (s_preferenceMatch (scores sv)) /\
  (s_reviewCount (scores sv) == scoreReviewCount v)%Q /\
  score sv = totalScore (scores sv).
Proof.
  unfold scoreVenue.
  destruct (scorePreferenceMatch v preferences) as [pm|]; [|discriminate].
  cbn [mbind Outcome_bind]. intros [= <-]. cbn.
  repeat split; reflexivity.
Qed.

(** The scores of one venue: four components between 0 and 1, and a
    proximity and a composite that are so when the distance is a number
    and NaN when it is NaN. *)
Lemma scoreVenue_range (reference : Location) (v : Venue)
    (sv : ScoredVenue) :
  scoreVenue preferences target reference v = Returns sv ->
  unitInterval (s_rating (scores sv)) /\
  unitInterval (s_priceMatch (scores sv)) /\
  unitInterval (s_preferenceMatch (scores sv)) /\
  unitInterval (s_reviewCount (scores sv)) /\
  match calculateDistance (location v) reference with
  | Js.finite _ =>
      inUnitInterval (s_proximity (scores sv)) /\ inUnitInterval (score sv)
  | Js.NaN => s_proximity (scores sv) = Js.NaN /\ score sv = Js.NaN
  end.
Proof.
  intros Hsv.
  destruct (scoreVenue_Returns _ _ _ Hsv)
    as (_ & Hr & Hp & Hm & Hpm & Hc & Hs).
  pose proof (scoreRating_range v) as Rr.
  pose proof (scorePriceMatch_range v target) as Rm.
  pose proof (scoreReviewCount_range v) as Rc.
  pose proof (scorePreferenceMatch_range _ _ _ Hpm) as Rpm.
  unfold unitInterval in Rr, Rm, Rc, Rpm.
  rewrite <- Hr in Rr. rewrite <- Hm in Rm. rewrite <- Hc in Rc.
  assert (unitInterval (s_rating (scores sv))) as Ur by exact Rr.
  assert (unitInterval (s_priceMatch (scores sv))) as Um by exact Rm.
  assert (unitInterval (s_preferenceMatch (scores sv))) as Upm
    by (unfold unitInterval; lra).
  assert (unitInterval (s_reviewCount (scores sv))) as Uc by exact Rc.
  repeat (split; [assumption|]).
  destruct (calculateDistance (location v) reference) as [d|] eqn:Ed.
  - assert (inUnitInterval (s_proximity (scores sv))) as Up
      by (rewrite Hp; by eapply scoreProximity_range).
    split; [exact Up|].
    rewrite Hs. by apply totalScore_range.
  - assert (s_proximity (scores sv) = Js.NaN) as Up
      by (rewrite Hp; by apply scoreProximity_NaN).
    split; [exact Up|].
    rewrite Hs. by apply totalScore_NaN.
Qed.

(** [rankVenues] returns what the sort makes of the scored venues. *)
Lemma rankVenues_Returns (venues : list Venue)
    (referenceLocation : option Location) (ranked : list ScoredVenue) :
  rankVenues venues preferences target referenceLocation = Returns ranked ->
  exists scored,
    Forall2 (fun v sv =>
               scoreVenue preferences target
                 (default (calculateCentroid venues) referenceLocation) v
               = Returns sv) venues scored /\
    ranked = Js.sort (fun a b => Js.sortCompare (byScoreDescending a b))
                     scored.
Proof.
  unfold rankVenues.
  destruct (mapM _ venues) as [scored|] eqn:E; [|discriminate].
  cbn [mbind Outcome_bind]. intros [= <-].
  exists scored. split; [by apply mapM_Returns|reflexivity].
Qed.

Lemma scored_venues (reference : Location) (venues : list Venue)
    (scored : list ScoredVenue) :
  Forall2 (fun v sv =>
             scoreVenue preferences target reference v = Returns sv)
          venues scored ->
  map venue scored = venues.
Proof.
  induction 1 as [|v sv venues scored Hsv _ IH]; [reflexivity|].
  cbn [map]. rewrite IH.
  by destruct (scoreVenue_Returns _ _ _ Hsv) as [-> _].
Qed.

Lemma rankVenues_returns (venues : list Venue)
    (referenceLocation : option Location) :
  forallb (fun v => negb (inheritedVibe v)) (vibe preferences) = true ->
  exists ranked,
    rankVenues venues preferences target referenceLocation = Returns ranked.
Proof.
  intros Hp. unfold rankVenues.
  generalize (default (calculateCentroid venues) referenceLocation).
  intros reference.
  assert (exists scored,
            mapM (scoreVenue preferences target reference) venues
            = Returns scored) as [scored ->].
  { induction venues as [|v venues [scored IH]]; [by eexists|].
    destruct (scoreVenue_returns reference v Hp) as [sv Hsv].
    rewrite mapM_cons, Hsv, IH. by eexists. }
  by eexists.
Qed.

Lemma rankVenues_throws (v : Venue) (venues : list Venue)
    (referenceLocation : option Location) :
  forallb (fun v => negb (inheritedVibe v)) (vibe preferences) = false ->
  rankVenues (v :: venues) preferences target referenceLocation
  = Throws (TypeError "keywords is not iterable").
Proof.
  intros Hp. unfold rankVenues.
  by rewrite mapM_cons, scoreVenue_throws.
Qed.

Lemma rankVenues_empty (referenceLocation : option Location) :
  rankVenues [] preferences target referenceLocation = Returns [].
Proof. reflexivity. Qed.

Lemma byScoreValue_rank (a b : ScoredVenue) :
  (byScoreValue a b
   == (fun x => - scoreValue x) a - (fun x => - scoreValue x) b)%Q.
Proof. unfold byScoreValue. ring. Qed.

(** Between two scores that are numbers the sort reads the difference of
    the scores off the comparator; with a NaN on either side it reads 0. *)
Lemma sortCompare_numbers (a b : ScoredVenue) :
  score a <> Js.NaN -> score b <> Js.NaN ->
  Js.sortCompare (byScoreDescending a b) = byScoreValue a b.
Proof.
  unfold byScoreDescending, byScoreValue, scoreValue.
  by destruct (score a), (score b).
Qed.

Lemma sortCompare_NaN (a b : ScoredVenue) :
  score a = Js.NaN \/ score b = Js.NaN ->
  Js.sortCompare (byScoreDescending a b) = 0%Q.
Proof.
  unfold byScoreDescending.
  intros [Hs|Hs]; rewrite Hs; [by destruct (score b)|reflexivity].
Qed.

Lemma rankVenues_singleton (v : Venue) (r1 r2 : option Location)
    (ranked : list ScoredVenue) :
  rankVenues [v] preferences target r1 = Returns ranked ->
  exists ranked',
    rankVenues [v] preferences target r2 = Returns ranked' /\
    map venue ranked' = map venue ranked.
Proof.
  unfold rankVenues. rewrite !mapM_cons. unfold scoreVenue.
  destruct (scorePreferenceMatch v preferences) as [pm|]; [|discriminate].
  cbn. intros [= <-].
  eexists. split; reflexivity.
Qed.

End Ranking.

Lemma StronglySorted_impl {X : Type} (R S : X -> X -> Prop) (l : list X) :
  (forall a b, R a b -> S a b) -> StronglySorted R l -> StronglySorted S l.
Proof.
  intros HRS. induction 1 as [|x l Hl IH Hx]; constructor; [exact IH|].
  eapply Forall_impl; [exact Hx|]. apply HRS.
Qed.

(** C4, at the input where the code departs from it.  A venue whose rating
    field is present and equal to 0 gets the neutral 0.5 of a missing
    rating, where clamp((0 - 3) / 2, 0, 1) is 0. *)
Theorem scoreRating_zero_rating_is_neutral :
  rating unrated = Some 0%Q /\
  (scoreRating unrated == 1 # 2)%Q /\
  (clamp ((0 - 3) / 2) 0 1 == 0)%Q /\
  ~ (scoreRating unrated == clamp ((0 - 3) / 2) 0 1)%Q.
Proof.
  repeat split; try reflexivity. vm_compute. discriminate.
Qed.

(** C10.  Whenever [scorePreferenceMatch] returns a score, it is the base
    0.5 plus a boost that is not negative, capped at 1: the score is at
    least 0.5 (and at most 1), whatever the venue and the preferences. *)
Theorem scorePreferenceMatch_at_least_neutral (v : Venue) (p : Preferences)
    (s : Q) :
  scorePreferenceMatch v p = Returns s ->
  (1 # 2 <= s)%Q /\ (s <= 1)%Q /\
  exists boost, (0 <= boost)%Q /\ (s == Qmin 1 ((1 # 2) + boost))%Q.
Proof.
  intros Hs.
  destruct (scorePreferenceMatch_raw v p s Hs) as (raw & Hraw & ->).
  split; [apply Q.min_glb; lra|]. split; [apply Q.le_min_l|].
  exists (raw - (1 # 2))%Q. split; [lra|].
  apply Q.min_compat; [reflexivity|ring].
Qed.

Lemma scorePreferenceMatch_at_least_neutral_witness :
  exists s,
    scorePreferenceMatch wineBar (samplePreferences ["Romantic"] ["wine"])
    = Returns s /\
    (s == 85 # 100)%Q /\ (1 # 2 <= s)%Q /\ (s <= 1)%Q.
Proof.
  eexists. split; [vm_compute; reflexivity|]. split; [reflexivity|].
  destruct (scorePreferenceMatch_at_least_neutral wineBar
              (samplePreferences ["Romantic"] ["wine"]) _ eq_refl)
    as (Hlow & Hhigh & _).
  exact (conj Hlow Hhigh).
Defined.

(** ** A sort only looks at the elements it sorts *)

Lemma insert_ext_in {X : Type} (cmp cmp' : X -> X -> Q) (x : X)
    (l : list X) :
  (forall y, In y l -> cmp x y = cmp' x y) ->
  Js.insert cmp x l = Js.insert cmp' x l.
Proof.
  induction l as [|y l IH]; intros Hcmp; [reflexivity|].
  cbn [Js.insert]. rewrite (Hcmp y) by (by left).
  destruct (Js.leb _ 0); [reflexivity|].
  f_equal. apply IH. intros z Hz. apply Hcmp. by right.
Qed.

Lemma sort_ext_in {X : Type} (cmp cmp' : X -> X -> Q) (l : list X) :
  (forall a b, In a l -> In b l -> cmp a b = cmp' a b) ->
  Js.sort cmp l = Js.sort cmp' l.
Proof.
  induction l as [|x l IH]; intros Hcmp; [reflexivity|].
  cbn [Js.sort foldr]. fold (Js.sort cmp l). fold (Js.sort cmp' l).
  rewrite IH by (intros a b Ha Hb; apply Hcmp; by right).
  apply insert_ext_in. intros y Hy. apply Hcmp; [by left|right].
  apply list_elem_of_In. rewrite <- (sort_perm cmp' l).
  by apply list_elem_of_In.
Qed.

Lemma StronglySorted_Forall_impl {X : Type} (P : X -> Prop)
    (R S : X -> X -> Prop) (l : list X) :
  (forall a b, P a -> P b -> R a b -> S a b) ->
  Forall P l -> StronglySorted R l -> StronglySorted S l.
Proof.
  intros HRS HP. induction 1 as [|x l Hl IH Hx]; constructor.
  - apply IH. by apply Forall_inv_tail in HP.
  - pose proof (Forall_inv HP) as Px. apply Forall_inv_tail in HP.
    clear IH Hl. induction Hx as [|y l Hy _ IH]; constructor.
    + apply HRS; [exact Px|by apply Forall_inv in HP|exact Hy].
    + apply IH. by apply Forall_inv_tail in HP.
Qed.

(** ** Scores and order of the ranking *)

Section Ranked.
Context `{Geodesy}.
Variables (preferences : Preferences) (target : Q) (reference : Location).

(** With distances that are numbers every composite score is a number. *)
Lemma scored_numbers (venues : list Venue) (scored : list ScoredVenue) :
  Forall2 (fun v sv =>
             scoreVenue preferences target reference v = Returns sv)
          venues scored ->
  Forall (fun v => calculateDistance (location v) reference <> Js.NaN)
         venues ->
  Forall (fun sv => score sv <> Js.NaN) scored.
Proof.
  induction 1 as [|v sv vs svs Hsv _ IH]; intros Hd; constructor.
  - apply Forall_inv in Hd.
    destruct (scoreVenue_range _ _ _ _ _ Hsv) as (_ & _ & _ & _ & Hp).
    destruct (calculateDistance (location v) reference); [|done].
    destruct Hp as [_ Hs]. by destruct (score sv).
  - apply IH. by apply Forall_inv_tail in Hd.
Qed.

(** On scores that are numbers the sort of the ranking is the sort by the
    difference of the scores. *)
Lemma sort_numbers (scored : list ScoredVenue) :
  Forall (fun sv => score sv <> Js.NaN) scored ->
  Js.sort (fun a b => Js.sortCompare (byScoreDescending a b)) scored
  = Js.sort byScoreValue scored.
Proof.
  intros Hn. apply sort_ext_in. intros a b Ha Hb.
  rewrite Forall_forall in Hn.
  apply sortCompare_numbers; apply Hn; by apply list_elem_of_In.
Qed.

End Ranked.

(** With distances that are numbers the list [rankVenues] returns is in
    non-increasing order of composite score, and it is the list of the
    scored venues in input order rearranged so that venues of equal
    composite score keep the order they had in the input. *)
Lemma rankVenues_sorted_of_numbers `{Geodesy} (venues : list Venue)
    (preferences : Preferences) (target : Q)
    (referenceLocation : option Location) (ranked : list ScoredVenue) :
  rankVenues venues preferences target referenceLocation = Returns ranked ->
  Forall (fun v =>
            calculateDistance (location v)
              (default (calculateCentroid venues) referenceLocation)
            <> Js.NaN) venues ->
  StronglySorted (fun a b => Js.ge (score a) (score b) = true) ranked /\
  exists scored,
    map venue scored = venues /\
    ranked ≡ₚ scored /\
    forall q : Q,
      List.filter (scoreIs q) ranked = List.filter (scoreIs q) scored.
Proof.
  intros Hr Hd.
  destruct (rankVenues_Returns _ _ _ _ _ Hr) as (scored & Hscored & ->).
  pose proof (scored_numbers _ _ _ _ _ Hscored Hd) as Hn.
  rewrite (sort_numbers scored Hn).
  assert (Forall (fun sv => score sv <> Js.NaN)
                 (Js.sort byScoreValue scored)) as Hn'
    by (by rewrite sort_perm).
  split.
  - apply (StronglySorted_Forall_impl
             (fun sv => score sv <> Js.NaN)
             (fun a b => (- scoreValue a <= - scoreValue b)%Q));
      [|exact Hn'
       |apply (sort_ascending byScoreValue (fun x => - scoreValue x)%Q
                 byScoreValue_rank)].
    intros a b Ha Hb Hab. unfold scoreValue in Hab.
    destruct (score a) as [x|]; [|done]. destruct (score b) as [y|]; [|done].
    cbn [Js.ge]. apply leb_le. lra.
  - exists scored. split; [eapply scored_venues; exact Hscored|].
    split; [apply sort_perm|].
    intros q.
    pose proof (sort_stable byScoreValue (fun x => - scoreValue x)%Q
                  byScoreValue_rank (- q)%Q scored) as Hst.
    assert (forall l : list ScoredVenue,
              Forall (fun sv => score sv <> Js.NaN) l ->
              List.filter (rankedAt (fun x => - scoreValue x)%Q (- q)%Q) l
              = List.filter (scoreIs q) l) as Hsame.
    { intros l Hl. apply List.filter_ext_in. intros sv Hsv.
      rewrite Forall_forall in Hl.
      apply list_elem_of_In, Hl in Hsv.
      unfold rankedAt, scoreIs, scoreValue.
      destruct (score sv) as [s|]; [|done].
      destruct (Js.eqb s q) eqn:E.
      - apply eqb_eq in E. apply eqb_eq. lra.
      - destruct (Js.eqb (- s) (- q)) eqn:E'; [|reflexivity].
        apply eqb_eq in E'.
        assert (Js.eqb s q = true) by (apply eqb_eq; lra).
        congruence. }
    by rewrite <- (Hsame _ Hn'), <- (Hsame _ Hn).
Qed.

Lemma rankVenues_sorted_of_numbers_witness :
  Forall (fun v => @calculateDistance gridDistance (location v)
                     (calculateCentroid [museum; wineBar; arcade])
                   <> Js.NaN) [museum; wineBar; arcade] /\
  exists ranked,
    @rankVenues gridDistance [museum; wineBar; arcade]
      (samplePreferences [] []) 20 None = Returns ranked /\
    map (fun sv => placeId (venue sv)) ranked = ["p1"; "p4"; "p5"] /\
    StronglySorted (fun a b => Js.ge (score a) (score b) = true) ranked /\
    exists scored,
      map venue scored = [museum; wineBar; arcade] /\
      ranked ≡ₚ scored /\
      forall q : Q,
        List.filter (scoreIs q) ranked = List.filter (scoreIs q) scored.
Proof.
  assert (Forall (fun v => @calculateDistance gridDistance (location v)
                             (calculateCentroid [museum; wineBar; arcade])
                           <> Js.NaN) [museum; wineBar; arcade]) as Hd
    by (repeat constructor; discriminate).
  split; [exact Hd|].
  eexists. split; [vm_compute; reflexivity|]. split; [reflexivity|].
  apply (@rankVenues_sorted_of_numbers gridDistance [museum; wineBar; arcade]
           (samplePreferences [] []) 20 None);
    [vm_compute; reflexivity|exact Hd].
Defined.

(** C3, with the input where the code departs from it.  Of every scored
    venue that [rankVenues] returns the rating, price, preference and
    review-count scores lie in [0,1] and the composite score is the
    weighted sum 0.30 rating + 0.25 proximity + 0.20 priceMatch + 0.15
    preferenceMatch + 0.10 reviewCount.  When the distance from the venue
    to the reference is a number, the proximity score and the composite
    score lie in [0,1] as well.  When that distance is NaN, the proximity
    score is NaN and so is the composite score: neither lies in [0,1]. *)
Theorem rankVenues_scores_in_unit_interval_or_NaN `{Geodesy}
    (venues : list Venue) (preferences : Preferences) (target : Q)
    (referenceLocation : option Location) (ranked : list ScoredVenue) :
  rankVenues venues preferences target referenceLocation = Returns ranked ->
  Forall (fun sv =>
            unitInterval (s_rating (scores sv)) /\
            unitInterval (s_priceMatch (scores sv)) /\
            unitInterval (s_preferenceMatch (scores sv)) /\
            unitInterval (s_reviewCount (scores sv)) /\
            score sv
            = (s_rating (scores sv) * (30 # 100)%Q
               + s_proximity (scores sv) * (25 # 100)%Q
               + s_priceMatch (scores sv) * (20 # 100)%Q
               + s_preferenceMatch (scores sv) * (15 # 100)%Q
               + s_reviewCount (scores sv) * (10 # 100)%Q)%num /\
            match calculateDistance
                    (location (venue sv))
                    (default (calculateCentroid venues) referenceLocation)
            with
            | Js.finite _ =>
                inUnitInterval (s_proximity (scores sv)) /\
                inUnitInterval (score sv)
            | Js.NaN =>
                s_proximity (scores sv) = Js.NaN /\ score sv = Js.NaN /\
                ~ inUnitInterval (s_proximity (scores sv)) /\
                ~ inUnitInterval (score sv)
            end)
         ranked.
Proof.
  intros Hr.
  destruct (rankVenues_Returns _ _ _ _ _ Hr) as (scored & Hscored & ->).
  eapply Permutation_Forall; [symmetry; apply sort_perm|].
  clear Hr. revert Hscored.
  generalize (default (calculateCentroid venues) referenceLocation).
  intros reference Hscored.
  induction Hscored as [|v sv vs svs Hsv _ IH]; constructor; [|exact IH].
  destruct (scoreVenue_range _ _ _ _ _ Hsv) as (? & ? & ? & ? & Hp).
  destruct (scoreVenue_Returns _ _ _ _ _ Hsv)
    as (-> & _ & _ & _ & _ & _ & Hs).
  do 4 (split; [assumption|]).
  split; [exact Hs|].
  revert Hp. destruct (calculateDistance _ reference); intros Hp;
    [exact Hp|].
  destruct Hp as [-> ->]. repeat split; intros [].
Qed.

Lemma rankVenues_scores_in_unit_interval_or_NaN_witness :
  exists ranked,
    @rankVenues gridDistanceNaN [outpost; wineBar]
      (samplePreferences ["Romantic"] ["wine"]) 30 (Some antipode)
    = Returns ranked /\
    map (fun sv => placeId (venue sv)) ranked = ["p7"; "p1"] /\
    @calculateDistance gridDistanceNaN (location outpost) antipode = Js.NaN /\
    map (fun sv => s_proximity (scores sv)) ranked
    = [Js.NaN; Js.finite 0] /\
    Forall2 (fun sv expected =>
               match expected with
               | Some q => inUnitInterval (score sv) /\ (scoreValue sv == q)%Q
               | None => score sv = Js.NaN /\ ~ inUnitInterval (score sv)
               end)
            ranked [None; Some (7275 # 10000)%Q].
Proof.
  eexists. split; [vm_compute; reflexivity|]. split; [reflexivity|].
  split; [reflexivity|]. split; [reflexivity|].
  pose proof (@rankVenues_scores_in_unit_interval_or_NaN gridDistanceNaN
                [outpost; wineBar] (samplePreferences ["Romantic"] ["wine"])
                30 (Some antipode) _ ltac:(vm_compute; reflexivity)) as Hall.
  apply Forall_cons in Hall as [Hfar Hrest].
  apply Forall_cons in Hrest as [Hnear _].
  destruct Hfar as (_ & _ & _ & _ & _ & Hfar).
  destruct Hnear as (_ & _ & _ & _ & _ & Hnear).
  vm_compute in Hfar, Hnear.
  constructor.
  { split; [exact (proj1 (proj2 Hfar))|exact (proj2 (proj2 (proj2 Hfar)))]. }
  constructor; [|constructor].
  split; [exact (proj2 Hnear)|reflexivity].
Defined.

(** C8, at the input where the code departs from it.  Of three venues of
    which the second has a NaN distance to the reference, the composite
    score of the second is NaN, the comparator of the sort returns NaN
    for every pair it is in, and [rankVenues] returns the three in the
    order they came in, whatever the scores of the first and the last.
    When the first has the smaller score of the two, the result is not in
    non-increasing order of composite score. *)
Theorem rankVenues_NaN_score_keeps_input_order `{Geodesy}
    (low far high : Venue) (preferences : Preferences) (target : Q)
    (reference : Location) (ranked : list ScoredVenue) :
  calculateDistance (location far) reference = Js.NaN ->
  rankVenues [low; far; high] preferences target (Some reference)
  = Returns ranked ->
  exists sl sf sh,
    ranked = [sl; sf; sh] /\
    venue sl = low /\ venue sf = far /\ venue sh = high /\
    score sf = Js.NaN /\
    (forall p q : Q,
       score sl = Js.finite p -> score sh = Js.finite q -> (p < q)%Q ->
       ~ nonIncreasing (map score ranked)).
Proof.
  intros Hfar Hr.
  destruct (rankVenues_Returns _ _ _ _ _ Hr) as (scored & Hscored & ->).
  cbn [default] in Hscored. unfold Datatypes.id in Hscored.
  apply Forall2_cons_inv_l in Hscored as (sl & rest & Hsl & Hscored & ->).
  apply Forall2_cons_inv_l in Hscored as (sf & rest' & Hsf & Hscored & ->).
  apply Forall2_cons_inv_l in Hscored as (sh & rest'' & Hsh & Hscored & ->).
  apply Forall2_nil_inv_l in Hscored as ->.
  assert (score sf = Js.NaN) as Hnan.
  { destruct (scoreVenue_range _ _ _ _ _ Hsf) as (_ & _ & _ & _ & Hp).
    rewrite Hfar in Hp. apply Hp. }
  exists sl, sf, sh.
  assert (Js.sort (fun a b => Js.sortCompare (byScoreDescending a b))
                  [sl; sf; sh] = [sl; sf; sh]) as ->.
  { cbn [Js.sort foldr Js.insert].
    rewrite (sortCompare_NaN sf sh) by (by left). cbn [Js.insert].
    change (Js.leb 0 0) with true. cbn [Js.insert].
    rewrite (sortCompare_NaN sl sf) by (by right).
    reflexivity. }
  split; [reflexivity|].
  destruct (scoreVenue_Returns _ _ _ _ _ Hsl) as [-> _].
  destruct (scoreVenue_Returns _ _ _ _ _ Hsf) as [-> _].
  destruct (scoreVenue_Returns _ _ _ _ _ Hsh) as [-> _].
  repeat (split; [reflexivity|]). split; [exact Hnan|].
  intros p q Hp Hq Hpq Hsorted.
  specialize (Hsorted 0%nat 2%nat p q ltac:(lia)).
  cbn [map lookup list_lookup] in Hsorted.
  rewrite Hp, Hq in Hsorted.
  specialize (Hsorted eq_refl eq_refl). lra.
Qed.

Lemma rankVenues_NaN_score_keeps_input_order_witness :
  @calculateDistance gridDistanceNaN (location outpost) antipode = Js.NaN /\
  exists ranked,
    @rankVenues gridDistanceNaN [bistro; outpost; wineBar]
      (samplePreferences [] []) 30 (Some antipode) = Returns ranked /\
    map (fun sv => placeId (venue sv)) ranked = ["p2"; "p7"; "p1"] /\
    (exists p q,
       map score ranked = [Js.finite p; Js.NaN; Js.finite q] /\
       (p == 28 # 100)%Q /\ (q == 675 # 1000)%Q) /\
    ~ nonIncreasing (map score ranked).
Proof.
  split; [reflexivity|].
  destruct (@rankVenues_NaN_score_keeps_input_order gridDistanceNaN
              bistro outpost wineBar (samplePreferences [] []) 30 antipode
              _ eq_refl ltac:(vm_compute; reflexivity))
    as (sl & sf & sh & Hranked & _ & _ & _ & _ & Hunsorted).
  eexists. split; [vm_compute; reflexivity|]. split; [reflexivity|].
  split; [eexists _, _; split; [reflexivity|split; reflexivity]|].
  injection Hranked as <- <- <-.
  eapply Hunsorted; [reflexivity|reflexivity|reflexivity].
Defined.

(** ** The finalist selector *)

Section Selecting.
Context `{Geodesy}.
Variables (preferences : Preferences).

Lemma rankVenues_length (venues : list Venue) (target : Q)
    (referenceLocation : option Location) (ranked : list ScoredVenue) :
  rankVenues venues preferences target referenceLocation = Returns ranked ->
  length ranked = length venues.
Proof.
  intros Hr.
  destruct (rankVenues_Returns _ _ _ _ _ Hr) as (scored & Hscored & ->).
  rewrite sort_length. symmetry. eapply Forall2_length, Hscored.
Qed.

Lemma pick_key (key : string) (upTo : nat) (ranked : list ScoredVenue)
    (sel : Selection) :
  ranked <> [] ->
  selected (pick key upTo ranked sel) !! key = head (map venue ranked) /\
  backups (pick key upTo ranked sel) !! key
  = Some (map venue (Js.slice 1 upTo ranked)).
Proof.
  destruct ranked as [|first rest]; [done|]. intros _.
  cbn [pick selected backups]. by rewrite !lookup_insert_eq.
Qed.

Lemma pick_other (key other : string) (upTo : nat)
    (ranked : list ScoredVenue) (sel : Selection) :
  other <> key ->
  selected (pick key upTo ranked sel) !! other = selected sel !! other /\
  backups (pick key upTo ranked sel) !! other = backups sel !! other.
Proof.
  intros Hne. destruct ranked as [|first rest]; [done|].
  cbn [pick selected backups]. by rewrite !lookup_insert_ne.
Qed.

(** After [rerankAround] the picks under [key] are those of the ranking
    around the dinner venue, also when the pool is too small for the
    source to rank it again. *)
Lemma rerankAround_Returns (key : string) (pool : list Venue) (budget : Q)
    (ranked : list ScoredVenue) (dinnerLocation : Location)
    (sel sel' : Selection) :
  pool <> [] ->
  rankVenues pool preferences budget None = Returns ranked ->
  selected sel !! key = head (map venue ranked) ->
  backups sel !! key = Some (map venue (Js.slice 1 3 ranked)) ->
  rerankAround key pool preferences budget ranked dinnerLocation sel
  = Returns sel' ->
  (exists reranked,
     rankVenues pool preferences budget (Some dinnerLocation)
     = Returns reranked /\
     selected sel' !! key = head (map venue reranked) /\
     backups sel' !! key = Some (map venue (Js.slice 1 3 reranked))) /\
  forall other, other <> key ->
    selected sel' !! other = selected sel !! other /\
    backups sel' !! other = backups sel !! other.
Proof.
  intros Hpool Hranked Hsel Hback. unfold rerankAround.
  pose proof (rankVenues_length _ _ _ _ Hranked) as Hlen.
  destruct (Nat.ltb_spec 1 (length ranked)) as [Hmany|Hone].
  - destruct (rankVenues pool preferences budget (Some dinnerLocation))
      as [reranked|] eqn:Hre; [|discriminate].
    cbn [mbind Outcome_bind]. intros [= <-].
    pose proof (rankVenues_length _ _ _ _ Hre) as Hlen'.
    assert (reranked <> []) as Hne
      by (destruct reranked; [simpl in *; lia|done]).
    split.
    + exists reranked. split; [reflexivity|]. by apply pick_key.
    + intros other Hother. by apply pick_other.
  - intros [= <-].
    destruct pool as [|v [|v' pool]]; [done| |simpl in *; lia].
    destruct (rankVenues_singleton preferences budget v None
                (Some dinnerLocation) ranked Hranked)
      as (reranked & Hre & Hsame).
    split; [|done].
    exists reranked. split; [exact Hre|].
    unfold Js.slice. rewrite <- !firstn_map, <- !skipn_map, Hsame.
    rewrite Hsel, Hback, !skipn_map, !firstn_map. done.
Qed.

Lemma rerankAround_returns (key : string) (pool : list Venue) (budget : Q)
    (ranked : list ScoredVenue) (dinnerLocation : Location)
    (sel : Selection) :
  forallb (fun v => negb (inheritedVibe v)) (vibe preferences) = true ->
  exists sel',
    rerankAround key pool preferences budget ranked dinnerLocation sel
    = Returns sel'.
Proof.
  intros Hp. unfold rerankAround.
  destruct (1 <? length ranked)%nat; [|by eexists].
  destruct (rankVenues_returns preferences budget pool (Some dinnerLocation)
              Hp) as [reranked ->].
  by eexists.
Qed.

(** [selectBestVenues] returns unless a vibe tag is inherited. *)
Lemma selectBestVenues_returns (pools : PerCategory (list Venue))
    (budgetPerCategory : PerCategory Q) :
  forallb (fun v => negb (inheritedVibe v)) (vibe preferences) = true ->
  exists sel,
    selectBestVenues pools preferences budgetPerCategory = Returns sel.
Proof.
  intros Hp. unfold selectBestVenues.
  destruct (rankVenues_returns preferences (activity budgetPerCategory)
              (activity pools) None Hp) as [rA ->].
  destruct (rankVenues_returns preferences (dinner budgetPerCategory)
              (dinner pools) None Hp) as [rD ->].
  destruct (rankVenues_returns preferences (finish budgetPerCategory)
              (finish pools) None Hp) as [rF ->].
  cbn [mbind Outcome_bind].
  destruct (selected _ !! "dinner") as [dinnerVenue|]; [|by eexists].
  edestruct (rerankAround_returns "activity") as [sel4 ->]; [exact Hp|].
  cbn [mbind Outcome_bind].
  by apply rerankAround_returns.
Qed.

(** With empty pools nothing is picked. *)
Lemma selectBestVenues_empty (budgetPerCategory : PerCategory Q) :
  exists sel,
    selectBestVenues {| activity := []; dinner := []; finish := [] |}
      preferences budgetPerCategory = Returns sel /\
    selected sel = ∅ /\
    forall key, key ∈ ["activity"; "dinner"; "finish"] ->
                backups sel !! key = Some [].
Proof.
  eexists. split; [reflexivity|]. split; [reflexivity|].
  intros key Hkey. cbn [backups].
  repeat (apply elem_of_cons in Hkey as [->|Hkey]; [by simplify_map_eq|]).
  by apply elem_of_nil in Hkey.
Qed.

End Selecting.

(** C1.  With three non-empty pools, whenever [selectBestVenues] returns:
    the dinner pick is the first of the dinner ranking and the dinner
    backups are its ranks 2 to 4 ([slice(1, 4)], up to three); and the
    activity and the finish picks are the first of the ranking of their
    pool around the location of the dinner pick, with its ranks 2 to 3
    ([slice(1, 3)], up to two) as backups. *)
Theorem selectBestVenues_picks_by_rank `{Geodesy}
    (pools : PerCategory (list Venue)) (preferences : Preferences)
    (budgetPerCategory : PerCategory Q) (sel : Selection) :
  activity pools <> [] -> dinner pools <> [] -> finish pools <> [] ->
  selectBestVenues pools preferences budgetPerCategory = Returns sel ->
  exists rankedDinner dinnerPick,
    rankVenues (dinner pools) preferences (dinner budgetPerCategory) None
    = Returns rankedDinner /\
    head rankedDinner = Some dinnerPick /\
    selected sel !! "dinner" = Some (venue dinnerPick) /\
    backups sel !! "dinner" = Some (map venue (Js.slice 1 4 rankedDinner)) /\
    (exists rerankedActivity,
       rankVenues (activity pools) preferences (activity budgetPerCategory)
         (Some (location (venue dinnerPick))) = Returns rerankedActivity /\
       selected sel !! "activity" = head (map venue rerankedActivity) /\
       backups sel !! "activity"
       = Some (map venue (Js.slice 1 3 rerankedActivity))) /\
    (exists rerankedFinish,
       rankVenues (finish pools) preferences (finish budgetPerCategory)
         (Some (location (venue dinnerPick))) = Returns rerankedFinish /\
       selected sel !! "finish" = head (map venue rerankedFinish) /\
       backups sel !! "finish"
       = Some (map venue (Js.slice 1 3 rerankedFinish))).
Proof.
  intros HA HD HF. unfold selectBestVenues.
  destruct (rankVenues (activity pools) _ _ None) as [rA|] eqn:EA;
    [|discriminate].
  destruct (rankVenues (dinner pools) _ _ None) as [rD|] eqn:ED;
    [|discriminate].
  destruct (rankVenues (finish pools) _ _ None) as [rF|] eqn:EF;
    [|discriminate].
  cbn [mbind Outcome_bind].
  pose proof (rankVenues_length _ _ _ _ _ EA) as LA.
  pose proof (rankVenues_length _ _ _ _ _ ED) as LD.
  pose proof (rankVenues_length _ _ _ _ _ EF) as LF.
  assert (rA <> []) as NA by (intros ->; destruct (activity pools); done).
  assert (rF <> []) as NF by (intros ->; destruct (finish pools); done).
  destruct rD as [|d rD]; [destruct (dinner pools); done|].
  set (sel0 := {| selected := ∅; backups := _ |}).
  set (sel1 := pick "activity" 3 rA sel0).
  set (sel2 := pick "dinner" 4 (d :: rD) sel1).
  set (sel3 := pick "finish" 3 rF sel2).
  destruct (pick_key "activity" 3 rA sel0 NA) as [SA BA]. fold sel1 in SA, BA.
  destruct (pick_key "dinner" 4 (d :: rD) sel1) as [SD BD]; [done|].
  fold sel2 in SD, BD.
  destruct (pick_key "finish" 3 rF sel2 NF) as [SF BF]. fold sel3 in SF, BF.
  destruct (pick_other "dinner" "activity" 4 (d :: rD) sel1) as [SA2 BA2];
    [done|]. fold sel2 in SA2, BA2.
  destruct (pick_other "finish" "activity" 3 rF sel2) as [SA3 BA3]; [done|].
  fold sel3 in SA3, BA3.
  destruct (pick_other "finish" "dinner" 3 rF sel2) as [SD3 BD3]; [done|].
  fold sel3 in SD3, BD3.
  rewrite SD3, SD. cbn [map head].
  destruct (rerankAround "activity" _ _ _ rA _ sel3) as [sel4|] eqn:E4;
    [|discriminate].
  cbn [mbind Outcome_bind]. intros E5.
  destruct (rerankAround_Returns preferences "activity" (activity pools)
              (activity budgetPerCategory) rA (location (venue d)) sel3 sel4)
    as [(rA' & ERA & SA4 & BA4) O4]; try assumption.
  { by rewrite SA3, SA2. }
  { by rewrite BA3, BA2. }
  destruct (rerankAround_Returns preferences "finish" (finish pools)
              (finish budgetPerCategory) rF (location (venue d)) sel4 sel)
    as [(rF' & ERF & SF5 & BF5) O5]; try assumption.
  { destruct (O4 "finish") as [-> _]; done. }
  { destruct (O4 "finish") as [_ ->]; done. }
  exists (d :: rD), d. split; [reflexivity|]. split; [reflexivity|].
  destruct (O5 "dinner") as [-> ->]; [done|].
  destruct (O4 "dinner") as [-> ->]; [done|].
  rewrite SD3, SD, BD3, BD.
  split; [reflexivity|]. split; [reflexivity|].
  split.
  - exists rA'. split; [exact ERA|].
    destruct (O5 "activity") as [-> ->]; done.
  - exists rF'. done.
Qed.

Lemma selectBestVenues_picks_by_rank_witness :
  exists sel,
    @selectBestVenues gridDistance
      {| activity := [arcade; museum]; dinner := [bistro; wineBar];
         finish := [lounge] |}
      (samplePreferences ["relaxed"] [])
      {| activity := 20%Q; dinner := 30%Q; finish := 10%Q |} = Returns sel /\
    placeId <$> selected sel !! "dinner" = Some "p1" /\
    map placeId <$> backups sel !! "dinner" = Some ["p2"] /\
    placeId <$> selected sel !! "activity" = Some "p4" /\
    exists rerankedActivity,
      @rankVenues gridDistance [arcade; museum]
        (samplePreferences ["relaxed"] []) 20 (Some (location wineBar))
      = Returns rerankedActivity /\
      selected sel !! "activity" = head (map venue rerankedActivity).
Proof.
  eexists. split; [vm_compute; reflexivity|].
  split; [reflexivity|]. split; [reflexivity|]. split; [reflexivity|].
  destruct (@selectBestVenues_picks_by_rank gridDistance
              {| activity := [arcade; museum]; dinner := [bistro; wineBar];
                 finish := [lounge] |}
              (samplePreferences ["relaxed"] [])
              {| activity := 20%Q; dinner := 30%Q; finish := 10%Q |}
              _ ltac:(discriminate) ltac:(discriminate) ltac:(discriminate)
              eq_refl)
    as (rD & d & HrD & Hd & _ & _ & (rA & HrA & HsA & _) & _).
  exists rA. split; [|exact HsA].
  rewrite <- HrA.
  assert (Returns rD = Returns _) as Heq
    by (rewrite <- HrD; vm_compute; reflexivity).
  injection Heq as ->. injection Hd as <-. reflexivity.
Defined.

(** ** The proximity clusterer *)

Lemma concat_perm {X : Type} (ls ks : list (list X)) :
  ls ≡ₚ ks -> concat ls ≡ₚ concat ks.
Proof.
  induction 1 as [|x ls ks _ IH|x y ls|ls ks ms _ IH1 _ IH2]; cbn [concat].
  - reflexivity.
  - by rewrite IH.
  - rewrite !app_assoc. f_equiv. apply Permutation_app_comm.
  - by rewrite IH1.
Qed.

Lemma map_fmap {X Y : Type} (f : X -> Y) (l : list X) : map f l = f <$> l.
Proof. induction l as [|x l IH]; [reflexivity|]. cbn. by rewrite IH. Qed.

Lemma NoDup_map {X Y : Type} (f : X -> Y) (l : list X) :
  NoDup (map f l) -> NoDup l.
Proof. rewrite map_fmap. apply NoDup_fmap_1. Qed.

Lemma concat_snoc {X : Type} (ls : list (list X)) (l : list X) :
  concat (ls ++ [l]) = concat ls ++ l.
Proof. rewrite concat_app. cbn [concat]. by rewrite app_nil_r. Qed.

(** In a duplicate-free concatenation, an element lies in one list only. *)
Lemma concat_NoDup_unique {X : Type} (ls : list (list X)) :
  NoDup (concat ls) ->
  forall (i j : nat) (l k : list X) (x : X),
    ls !! i = Some l -> ls !! j = Some k -> In x l -> In x k -> i = j.
Proof.
  induction ls as [|m ls IH]; intros Hnd i j l k x Hi Hj Hl Hk; [done|].
  cbn [concat] in Hnd. apply NoDup_app in Hnd as (_ & Hdisj & Hnd).
  assert (forall (n : nat) (l' : list X),
            ls !! n = Some l' -> In x l' -> x ∈ concat ls) as Hin.
  { intros n l' Hn Hx. apply list_elem_of_In, in_concat.
    exists l'. split; [|exact Hx].
    apply list_elem_of_In. eapply list_elem_of_lookup_2, Hn. }
  destruct i as [|i], j as [|j]; cbn in Hi, Hj.
  - reflexivity.
  - injection Hi as <-. exfalso.
    eapply Hdisj; [apply list_elem_of_In, Hl|]. eapply Hin; eassumption.
  - injection Hj as <-. exfalso.
    eapply Hdisj; [apply list_elem_of_In, Hk|]. eapply Hin; eassumption.
  - f_equal. eapply IH; eassumption.
Qed.

Section Clustering.
Context `{Geodesy}.
Variables (radius : Q) (venues : list Venue).

Lemma placed_add (members : list Venue) (assigned : gset string)
    (v : Venue) :
  placed venues members assigned -> In v venues -> placeId v ∉ assigned ->
  placed venues (members ++ [v]) ({[placeId v]} ∪ assigned).
Proof.
  intros (Hnd & Hids & Hin) Hv Hfresh. unfold placed.
  rewrite map_app. cbn [map]. repeat split.
  - apply NoDup_app. split; [exact Hnd|]. split; [|apply NoDup_singleton].
    intros i Hi Hi'. apply list_elem_of_In in Hi.
    apply list_elem_of_singleton in Hi'. subst i.
    apply Hfresh, Hids, Hi.
  - rewrite elem_of_union, elem_of_singleton, in_app_iff, Hids.
    cbn [In]. intros [->|?]; auto.
  - rewrite elem_of_union, elem_of_singleton, in_app_iff, Hids.
    cbn [In]. intros [?|[<-|[]]]; auto.
  - intros w. rewrite in_app_iff. cbn [In]. intros [?|[<-|[]]]; auto.
Qed.

Lemma absorb_fold (seed : Venue) (l : list Venue) :
  forall (before cluster : list Venue) (assigned : gset string),
    (forall v, In v l -> In v venues) ->
    placed venues (before ++ cluster) assigned ->
    exists cluster' assigned',
      foldl (absorb radius seed) (cluster, assigned) l
      = (cluster', assigned') /\
      placed venues (before ++ cluster') assigned' /\
      assigned ⊆ assigned'.
Proof.
  induction l as [|other l IH]; intros before cluster assigned Hl Hp.
  - by exists cluster, assigned.
  - cbn [foldl]. unfold absorb at 2.
    assert (forall v, In v l -> In v venues) as Hl'
      by (intros; apply Hl; by right).
    destruct (bool_decide _) eqn:Hseen; [by apply IH|].
    apply bool_decide_eq_false in Hseen.
    destruct (Js.le _ _); [|by apply IH].
    destruct (IH before (cluster ++ [other]) ({[placeId other]} ∪ assigned))
      as (cluster' & assigned' & Hfold & Hp' & Hsub); [exact Hl'| |].
    { rewrite app_assoc. apply placed_add; [exact Hp| |exact Hseen].
      apply Hl. by left. }
    exists cluster', assigned'. split; [exact Hfold|].
    split; [exact Hp'|set_solver].
Qed.

Lemma openCluster_fold (l : list Venue) :
  forall (clusters : list (list Venue)) (assigned : gset string),
    (forall v, In v l -> In v venues) ->
    placed venues (concat clusters) assigned ->
    exists clusters' assigned',
      foldl (openCluster radius venues) (clusters, assigned) l
      = (clusters', assigned') /\
      placed venues (concat clusters') assigned' /\
      assigned ⊆ assigned' /\
      forall v, In v l -> placeId v ∈ assigned'.
Proof.
  induction l as [|v l IH]; intros clusters assigned Hl Hp.
  - exists clusters, assigned.
    split; [reflexivity|]. split; [exact Hp|]. split; [done|intros ? []].
  - cbn [foldl]. unfold openCluster at 2.
    assert (forall v, In v l -> In v venues) as Hl'
      by (intros; apply Hl; by right).
    destruct (bool_decide _) eqn:Hseen.
    + apply bool_decide_eq_true in Hseen.
      destruct (IH clusters assigned Hl' Hp)
        as (clusters' & assigned' & Hfold & Hp' & Hsub & Hall).
      exists clusters', assigned'.
      split; [exact Hfold|]. split; [exact Hp'|]. split; [exact Hsub|].
      intros w [<-|Hw]; [by apply Hsub|by apply Hall].
    + apply bool_decide_eq_false in Hseen.
      destruct (absorb_fold v venues (concat clusters) [v]
                  ({[placeId v]} ∪ assigned))
        as (cluster & assigned1 & -> & Hp1 & Hsub1); [done| |].
      { apply placed_add; [exact Hp| |exact Hseen]. apply Hl. by left. }
      rewrite <- concat_snoc in Hp1.
      destruct (IH (clusters ++ [cluster]) assigned1 Hl' Hp1)
        as (clusters' & assigned' & Hfold & Hp' & Hsub & Hall).
      exists clusters', assigned'.
      split; [exact Hfold|]. split; [exact Hp'|]. split; [set_solver|].
      intros w [<-|Hw]; [|by apply Hall]. apply Hsub, Hsub1. set_solver.
Qed.

(** The clusters before the final sort hold every venue of the input, up
    to the placeId, exactly once. *)
Lemma clusters_placed :
  exists clusters assigned,
    foldl (openCluster radius venues) ([], ∅) venues = (clusters, assigned) /\
    placed venues (concat clusters) assigned /\
    forall v, In v venues -> placeId v ∈ assigned.
Proof.
  destruct (openCluster_fold venues [] ∅) as (cs & a & Hfold & Hp & _ & Hall).
  - done.
  - split; [constructor|]. split; [|intros v []].
    intros i. split; [set_solver|intros []].
  - by exists cs, a.
Qed.

End Clustering.

Lemma clusterByProximity_sorted `{Geodesy} (venues : list Venue)
    (maxDistanceMeters : option Q) :
  exists clusters assigned,
    foldl (openCluster (default 1500%Q maxDistanceMeters) venues) ([], ∅)
          venues = (clusters, assigned) /\
    clusterByProximity venues maxDistanceMeters
    = Js.sort bySizeDescending clusters.
Proof.
  unfold clusterByProximity.
  destruct venues as [|v venues]; [by exists [], ∅|].
  destruct (foldl _ _ (v :: venues)) as [clusters assigned].
  by exists clusters, assigned.
Qed.

Lemma clusterByProximity_empty `{Geodesy} (maxDistanceMeters : option Q) :
  clusterByProximity [] maxDistanceMeters = [].
Proof. reflexivity. Qed.

(** C5.  For every venue list in which the placeId identifies the venue
    (the uniqueness of the data model) and every radius, the clusters of
    [clusterByProximity] partition the input: a venue is in the input
    exactly when it is in a cluster, no venue occurs twice in the clusters
    taken together, and a venue lies in one cluster only. *)
Theorem clusterByProximity_partitions `{Geodesy} (venues : list Venue)
    (maxDistanceMeters : option Q) :
  identifiedByPlaceId venues ->
  let clusters := clusterByProximity venues maxDistanceMeters in
  (forall v, In v venues <-> In v (concat clusters)) /\
  NoDup (concat clusters) /\
  (forall (i j : nat) (c c' : list Venue) (v : Venue),
     clusters !! i = Some c -> clusters !! j = Some c' ->
     In v c -> In v c' -> i = j).
Proof.
  intros Hid clusters.
  destruct (clusterByProximity_sorted venues maxDistanceMeters)
    as (cs & assigned & Hfold & Hsorted).
  destruct (clusters_placed (default 1500%Q maxDistanceMeters) venues)
    as (cs' & assigned' & Hfold' & (Hnd & Hids & Hin) & Hall).
  rewrite Hfold in Hfold'. injection Hfold' as <- <-.
  assert (concat clusters ≡ₚ concat cs) as Hperm.
  { subst clusters. rewrite Hsorted. apply concat_perm, sort_perm. }
  assert (NoDup (concat clusters)) as Hnd'.
  { rewrite Hperm. eapply NoDup_map, Hnd. }
  split; [|split; [exact Hnd'|by apply concat_NoDup_unique]].
  intros v. rewrite <- !list_elem_of_In, Hperm, !list_elem_of_In.
  split; [|apply Hin].
  intros Hv. pose proof (Hall v Hv) as Hplaced.
  apply Hids, in_map_iff in Hplaced as (w & Hw & Hwin).
  by rewrite <- (Hid w v (Hin w Hwin) Hv Hw).
Qed.

Lemma clusterByProximity_partitions_witness :
  identifiedByPlaceId [wineBar; arcade; bistro] /\
  map (map placeId)
      (@clusterByProximity gridDistance [wineBar; arcade; bistro] None)
  = [["p1"; "p2"]; ["p5"]] /\
  NoDup (concat (@clusterByProximity gridDistance [wineBar; arcade; bistro]
                   None)).
Proof.
  assert (identifiedByPlaceId [wineBar; arcade; bistro]) as Hid.
  { intros v w Hv Hw. cbn [In] in Hv, Hw.
    destruct Hv as [<-|[<-|[<-|[]]]], Hw as [<-|[<-|[<-|[]]]];
      first [reflexivity|discriminate]. }
  split; [exact Hid|]. split; [reflexivity|].
  apply (@clusterByProximity_partitions gridDistance
           [wineBar; arcade; bistro] None Hid).
Defined.

(** A list with the same venue twice keeps it once. *)
Lemma clusterByProximity_repeated_venue :
  @clusterByProximity gridDistance [wineBar; wineBar] None = [[wineBar]].
Proof. reflexivity. Qed.

(** Outside the data model, where two venues share a placeId, the second
    one is taken for assigned and is in no cluster. *)
Lemma clusterByProximity_shared_placeId :
  let twin := sampleVenue "Twin" "p1" 0 0 None None None Cdinner in
  @clusterByProximity gridDistance [wineBar; twin] None = [[wineBar]].
Proof. reflexivity. Qed.

(** With no venue listed twice the clusters are a rearrangement of the
    input. *)
Lemma clusterByProximity_perm `{Geodesy} (venues : list Venue)
    (maxDistanceMeters : option Q) :
  NoDup (map placeId venues) ->
  concat (clusterByProximity venues maxDistanceMeters) ≡ₚ venues.
Proof.
  intros Hnd.
  assert (identifiedByPlaceId venues) as Hid.
  { intros v w Hv Hw Hvw.
    apply list_elem_of_In, list_elem_of_lookup in Hv as [i Hi].
    apply list_elem_of_In, list_elem_of_lookup in Hw as [j Hj].
    assert (i = j) as ->; [|congruence].
    eapply NoDup_lookup; [exact Hnd| |].
    - rewrite map_fmap, list_lookup_fmap, Hi. reflexivity.
    - rewrite map_fmap, list_lookup_fmap, Hj. cbn. by rewrite Hvw. }
  destruct (clusterByProximity_sorted venues maxDistanceMeters)
    as (cs & assigned & Hfold & ->).
  destruct (clusters_placed (default 1500%Q maxDistanceMeters) venues)
    as (cs' & assigned' & Hfold' & (Hnd' & Hids & Hin) & Hall).
  rewrite Hfold in Hfold'. injection Hfold' as <- <-.
  rewrite (concat_perm _ _ (sort_perm bySizeDescending cs)).
  apply NoDup_Permutation; [eapply NoDup_map, Hnd'|eapply NoDup_map, Hnd|].
  intros v. rewrite !list_elem_of_In. split; [apply Hin|].
  intros Hv. pose proof (Hall v Hv) as Hplaced.
  apply Hids, in_map_iff in Hplaced as (w & Hw & Hwin).
  by rewrite <- (Hid w v (Hin w Hwin) Hv Hw).
Qed.

(** ** The plan builder *)

Lemma uniqueFrom_fresh (venues : list Venue) :
  forall (seen : gset string) (v : Venue),
    In v (uniqueFrom seen venues) -> (placeId v ∉ seen) /\ In v venues.
Proof.
  induction venues as [|x venues IH]; intros seen v; cbn [uniqueFrom];
    [intros []|].
  destruct (bool_decide _) eqn:Hseen.
  - intros Hv. destruct (IH seen v Hv) as [Hfresh Hin].
    split; [exact Hfresh|by right].
  - apply bool_decide_eq_false in Hseen.
    intros [<-|Hv]; [split; [exact Hseen|by left]|].
    destruct (IH _ v Hv) as [Hfresh Hin]. split; [|by right].
    intros Hs. apply Hfresh, elem_of_union. by right.
Qed.

Lemma uniqueFrom_NoDup (venues : list Venue) (seen : gset string) :
  NoDup (map placeId (uniqueFrom seen venues)).
Proof.
  revert seen. induction venues as [|x venues IH]; intros seen;
    cbn [uniqueFrom]; [constructor|].
  destruct (bool_decide _); [apply IH|].
  cbn [map]. constructor; [|apply IH].
  rewrite list_elem_of_In, in_map_iff. intros (v & Hid & Hv).
  apply uniqueFrom_fresh in Hv as [Hfresh _]. set_solver.
Qed.

Section Walking.
Context `{NumberFormat}.
Variables (travelTimes : gmap string Z) (mode : Mode)
          (perPersonBudget : Q) (numStops : Z).

(** The loop makes one stop per venue, in order, with the cost estimate of
    that venue. *)
Lemma visit_fold (l : list Venue) (w : Walk) :
  let w' := foldl (visit travelTimes mode perPersonBudget numStops) w l in
  map stop_venue (w_stops w') = map stop_venue (w_stops w) ++ l /\
  (Forall (fun s => estimatedCostRange s
                    = estimateCost perPersonBudget numStops (stop_venue s))
          (w_stops w) ->
   Forall (fun s => estimatedCostRange s
                    = estimateCost perPersonBudget numStops (stop_venue s))
          (w_stops w')).
Proof.
  revert w. induction l as [|v l IH]; intros w; cbn [foldl].
  - cbn zeta. by rewrite app_nil_r.
  - destruct (IH (visit travelTimes mode perPersonBudget numStops w v))
      as [Hvenues Hcosts].
    cbn zeta. split.
    + rewrite Hvenues. cbn [visit w_stops]. rewrite map_app.
      cbn [map stop_venue]. by rewrite <- app_assoc.
    + intros Hw. apply Hcosts. cbn [visit w_stops].
      apply Forall_app. split; [exact Hw|]. by repeat constructor.
Qed.

End Walking.

Lemma categoryBudgets_nonneg (perPersonBudget : Q) (c : Category) (q : Q) :
  (0 <= perPersonBudget)%Q ->
  categoryBudgets perPersonBudget !! categoryName c = Some q ->
  (0 <= q)%Q.
Proof.
  intros Hp. unfold categoryBudgets. cbn [list_to_map foldr fst snd].
  destruct c; cbn [categoryName]; intros Hq; simplify_map_eq; lra.
Qed.

Lemma priceMultipliers_pos (i : nat) (q : Q) :
  priceMultipliers !! i = Some q -> (0 < q)%Q.
Proof.
  do 5 (destruct i as [|i]; [intros [= <-]; reflexivity|]). discriminate.
Qed.

Lemma estimateCost_ordered (perPersonBudget : Q) (numStops : Z) (v : Venue) :
  (0 <= perPersonBudget)%Q -> (0 <= numStops)%Z ->
  ((estimateCost perPersonBudget numStops v).1
   <= (estimateCost perPersonBudget numStops v).2)%Z.
Proof.
  intros Hp Hn. unfold estimateCost. cbn [fst snd].
  set (categoryBudget := default _ _).
  set (priceMultiplier := default _ _).
  assert (0 <= categoryBudget)%Q as Hc.
  { subst categoryBudget.
    destruct (categoryBudgets _ !! _) as [q|] eqn:E; cbn.
    - eapply categoryBudgets_nonneg; eassumption.
    - destruct (Z.eq_dec numStops 0%Z) as [->|Hne].
      + unfold Qdiv. change (/ inject_Z 0)%Q with 0%Q. lra.
      + apply Qle_shift_div_l; [|lra].
        change 0%Q with (inject_Z 0). rewrite <- Zlt_Qlt. lia. }
  assert (0 < priceMultiplier)%Q as Hm.
  { subst priceMultiplier.
    destruct (asIndex _ ≫= _) as [q|] eqn:E; cbn; [|reflexivity].
    destruct (asIndex _) as [i|]; [|discriminate].
    eapply priceMultipliers_pos, E. }
  apply round_mono.
  assert (0 <= categoryBudget * priceMultiplier)%Q
    by (apply Qmult_le_0_compat; lra).
  lra.
Qed.

(** C7.  For a positive budget and a positive party size, whatever the
    venue list, backup list, start time, travel times and mode: no two
    stops of the plan [buildPlanFromVenues] builds share a placeId, and
    every stop's estimated cost range has its low end at most its high
    end. *)
Theorem buildPlanFromVenues_distinct_and_ordered `{NumberFormat}
    (id : PlanId) (title : string) (venues backupVenues : list Venue)
    (startTime : string) (travelTimes : gmap string Z) (mode : Mode)
    (familyFriendly : bool) (budget partySize : Q) :
  (0 < budget)%Q -> (0 < partySize)%Q ->
  let plan := buildPlanFromVenues id title venues backupVenues startTime
                travelTimes mode familyFriendly budget partySize in
  NoDup (map (fun s => placeId (stop_venue s)) (stops plan)) /\
  Forall (fun s => ((estimatedCostRange s).1 <= (estimatedCostRange s).2)%Z)
         (stops plan).
Proof.
  intros Hb Hp plan. subst plan. unfold buildPlanFromVenues. cbn [stops].
  set (sorted := Js.sort _ (uniqueFrom ∅ venues)).
  set (numStops := match sorted with [] => 3%Z | _ => _ end).
  set (start := {| w_stops := [] |}).
  destruct (visit_fold travelTimes mode (budget / partySize) numStops
              sorted start) as [Hvenues Hcosts].
  cbn zeta in Hvenues, Hcosts. cbn [w_stops start app] in Hvenues.
  split.
  - rewrite <- (map_map stop_venue placeId), Hvenues.
    subst sorted. rewrite map_fmap, sort_perm, <- map_fmap.
    apply uniqueFrom_NoDup.
  - eapply Forall_impl; [apply Hcosts; constructor|].
    cbn beta. intros s ->. apply estimateCost_ordered.
    + apply Qle_shift_div_l; lra.
    + subst numStops. destruct sorted; lia.
Qed.

Lemma buildPlanFromVenues_distinct_and_ordered_witness :
  let plan := @buildPlanFromVenues integerFormat A "Evening out"
                [wineBar; museum; wineBar; lounge; bistro] [bistro]
                "18:00" ∅ standard false 200 2 in
  (0 < 200)%Q /\ (0 < 2)%Q /\
  map (fun s => (time s, stop_label s, placeId (stop_venue s),
                 estimatedCostRange s)) (stops plan)
  = [ ("18:00", "Activity", "p4", (18, 27)%Z);
      ("19:40", "Dinner", "p1", (36, 54)%Z);
      ("21:20", "Dinner 2", "p2", (36, 54)%Z);
      ("23:00", "Finish", "p6", (16, 23)%Z) ] /\
  NoDup (map (fun s => placeId (stop_venue s)) (stops plan)) /\
  Forall (fun s => ((estimatedCostRange s).1 <= (estimatedCostRange s).2)%Z)
         (stops plan).
Proof.
  cbn zeta. split; [reflexivity|]. split; [reflexivity|].
  split; [vm_compute; reflexivity|].
  apply (@buildPlanFromVenues_distinct_and_ordered integerFormat A
           "Evening out" [wineBar; museum; wineBar; lounge; bistro] [bistro]
           "18:00" ∅ standard false 200 2); reflexivity.
Defined.

(** Outside the data model, with a negative budget, the low end of the
    estimate is above the high end. *)
Lemma buildPlanFromVenues_negative_budget :
  map estimatedCostRange
      (stops (@buildPlanFromVenues integerFormat A "Evening out" [wineBar] []
                "18:00" ∅ standard false (-200) 2))
  = [(-36, -54)%Z].
Proof. vm_compute. reflexivity. Qed.

(** ** Returning normally *)

(** On well-formed times and with no inherited vibe tag the four functions
    of the core return, also on empty pools. *)
Lemma core_returns `{Geodesy} (budget : Budget) (startTime endTime : string)
    (venues : list Venue) (pools : PerCategory (list Venue))
    (preferences : Preferences) (target : Q)
    (budgetPerCategory : PerCategory Q)
    (referenceLocation : option Location) (maxDistanceMeters : option Q) :
  wellFormedTime startTime = true -> wellFormedTime endTime = true ->
  forallb (fun v => negb (inheritedVibe v)) (vibe preferences) = true ->
  (exists sk, buildSkeleton budget startTime endTime = Some sk /\
              slots sk <> []) /\
  (exists ranked,
     rankVenues venues preferences target referenceLocation
     = Returns ranked) /\
  (exists sel,
     selectBestVenues pools preferences budgetPerCategory = Returns sel) /\
  rankVenues [] preferences target referenceLocation = Returns [] /\
  clusterByProximity [] maxDistanceMeters = [].
Proof.
  intros Hst Hen Hp.
  split; [|split; [by apply rankVenues_returns|]];
    [|split; [by apply selectBestVenues_returns|done]].
  destruct (buildSkeleton_wellFormed budget startTime endTime Hst Hen)
    as (s & e & _ & _ & _ & _ & _ & ->).
  eexists. split; [reflexivity|]. cbn [slots].
  intros Hnil. apply (f_equal length) in Hnil.
  rewrite length_assignFrom, length_map in Hnil.
  by destruct (templateRule _ _ _ _).
Qed.

(** C9, at an input where the code throws.  A vibe tag that names a
    property of [Object.prototype] ("constructor" here) makes the keyword
    lookup return something that is not a list, and iterating it throws:
    [rankVenues] throws on a non-empty venue list and [selectBestVenues] on
    non-empty pools, whatever the distance function. *)
Theorem rankVenues_throws_on_inherited_vibe `{Geodesy} :
  rankVenues [bistro] (samplePreferences ["constructor"] []) 30 None
  = Throws (TypeError "keywords is not iterable") /\
  selectBestVenues
    {| activity := [museum]; dinner := [bistro]; finish := [lounge] |}
    (samplePreferences ["constructor"] [])
    {| activity := 20%Q; dinner := 30%Q; finish := 10%Q |}
  = Throws (TypeError "keywords is not iterable").
Proof.
  split; [by apply rankVenues_throws|].
  unfold selectBestVenues. cbn [activity dinner finish].
  by rewrite rankVenues_throws.
Qed.

(** * Further properties of the code *)

(** ** Component scores (src/src/agent/ranking.ts) *)

(** A venue that is no farther from its reference point than another one
    is from its own, both distances being numbers, has a proximity score
    that is no lower. *)
Theorem scoreProximity_nearer_is_better `{Geodesy} (v w : Venue)
    (r r' : Location) :
  Js.le (calculateDistance (location v) r)
        (calculateDistance (location w) r') = true ->
  Js.le (scoreProximity w r') (scoreProximity v r) = true.
Proof.
  unfold scoreProximity.
  destruct (calculateDistance (location v) r) as [d|]; [|discriminate].
  destruct (calculateDistance (location w) r') as [d'|]; [|discriminate].
  cbn [Js.le Js.ge]. intros Hd. apply leb_le in Hd.
  destruct (Js.leb d 500) eqn:E1, (Js.leb d' 500) eqn:E1';
    destruct (Js.leb 5000 d) eqn:E2, (Js.leb 5000 d') eqn:E2';
    cbn [Js.le Js.sub Js.div Js.lift2]; apply leb_le;
    repeat match goal with
           | E : Js.leb _ _ = true |- _ => apply leb_le in E
           | E : Js.leb _ _ = false |- _ => apply leb_gt in E
           end;
    by_constant 4500%Q; lra.
Qed.

Lemma scoreProximity_nearer_is_better_witness :
  Js.le (@calculateDistance gridDistance (location bistro) (location wineBar))
        (@calculateDistance gridDistance (location museum)
           (location wineBar)) = true /\
  Js.le (@scoreProximity gridDistance museum (location wineBar))
        (@scoreProximity gridDistance bistro (location wineBar)) = true.
Proof.
  split; [reflexivity|].
  apply (@scoreProximity_nearer_is_better gridDistance bistro museum
           (location wineBar) (location wineBar)).
  reflexivity.
Defined.

(** The price score is never under 0.1, and it is the full 1 exactly when
    the venue has a price level with a band that holds the target. *)
Theorem scorePriceMatch_floor_and_full (v : Venue) (target : Q) :
  (1 # 10 <= scorePriceMatch v target)%Q /\
  ((scorePriceMatch v target == 1)%Q <->
   exists level i lo hi,
     priceLevel v = Some level /\ asIndex level = Some i /\
     PRICE_LEVEL_EUR !! i = Some (lo, hi) /\
     (lo <= target)%Q /\ (target <= hi)%Q).
Proof.
  unfold scorePriceMatch.
  destruct (priceLevel v) as [level|].
  2:{ split; [lra|]. split; [intros Heq; lra|].
      intros (? & ? & ? & ? & [=] & _). }
  destruct (asIndex level) as [i|] eqn:Ei; cbn [mbind option_bind].
  2:{ split; [lra|]. split; [intros Heq; lra|].
      intros (? & ? & ? & ? & [= <-] & Hi & _). congruence. }
  destruct (PRICE_LEVEL_EUR !! i) as [[lo hi]|] eqn:Eb.
  2:{ split; [lra|]. split; [intros Heq; lra|].
      intros (? & ? & ? & ? & [= <-] & Hi & Hb & _). congruence. }
  destruct (Js.leb lo target) eqn:E1, (Js.leb target hi) eqn:E2;
    cbn [andb];
    repeat match goal with
           | E : Js.leb _ _ = true |- _ => apply leb_le in E
           | E : Js.leb _ _ = false |- _ => apply leb_gt in E
           end.
  - split; [lra|]. split; [|reflexivity].
    intros _. by exists level, i, lo, hi.
  - destruct (Js.ltb target lo) eqn:E3.
    + apply ltb_lt in E3. lra.
    + split; [lra|]. split; [intros Heq; lra|].
      intros (? & ? & ? & ? & [= <-] & Hi & Hb & Hlo & Hhi).
      assert (Some x0 = Some i) as [= ->] by congruence.
      assert (Some (x1, x2) = Some (lo, hi)) as [= -> ->] by congruence. lra.
  - assert (Js.ltb target lo = true) as -> by (by apply ltb_lt).
    split; [apply Q.le_max_l|].
    split.
    + intros Heq. exfalso. by_constant 50%Q.
      assert (Qmax (1 # 10) ((7 # 10) - (lo - target) * (1 # 50)) <= 7 # 10)%Q
        by (apply Q.max_lub; lra).
      lra.
    + intros (? & ? & ? & ? & [= <-] & Hi & Hb & Hlo & Hhi).
      assert (Some x0 = Some i) as [= ->] by congruence.
      assert (Some (x1, x2) = Some (lo, hi)) as [= -> ->] by congruence. lra.
  - assert (Js.ltb target lo = true) as -> by (by apply ltb_lt).
    split; [apply Q.le_max_l|].
    split.
    + intros Heq. exfalso. by_constant 50%Q.
      assert (Qmax (1 # 10) ((7 # 10) - (lo - target) * (1 # 50)) <= 7 # 10)%Q
        by (apply Q.max_lub; lra).
      lra.
    + intros (? & ? & ? & ? & [= <-] & Hi & Hb & Hlo & Hhi).
      assert (Some x0 = Some i) as [= ->] by congruence.
      assert (Some (x1, x2) = Some (lo, hi)) as [= -> ->] by congruence. lra.
Qed.

(** More reviews never lower the review score, and a venue with no count
    scores no higher than any other. *)
Theorem scoreReviewCount_monotone (v w : Venue) :
  (forall n m, reviewCount v = Some n -> reviewCount w = Some m ->
               (n <= m)%Q -> (scoreReviewCount v <= scoreReviewCount w)%Q) /\
  (reviewCount v = None -> (scoreReviewCount v <= scoreReviewCount w)%Q).
Proof.
  unfold scoreReviewCount. split.
  - intros n m -> -> Hnm.
    repeat match goal with
           | |- context [Js.eqb ?a ?b] =>
               let E := fresh "E" in destruct (Js.eqb a b) eqn:E;
               [apply eqb_eq in E|]
           | |- context [Js.leb ?a ?b] =>
               let E := fresh "E" in destruct (Js.leb a b) eqn:E;
               [apply leb_le in E|apply leb_gt in E]
           end; lra.
  - intros ->. destruct (reviewCount w) as [m|]; [|lra].
    repeat match goal with
           | |- context [if ?c then _ else _] => destruct c
           end; lra.
Qed.

Lemma scoreReviewCount_monotone_witness :
  reviewCount bistro = Some 10%Q /\ reviewCount museum = Some 120%Q /\
  (10 <= 120)%Q /\ (scoreReviewCount bistro <= scoreReviewCount museum)%Q.
Proof.
  split; [reflexivity|]. split; [reflexivity|].
  assert (10 <= 120)%Q as Hle by (vm_compute; discriminate).
  split; [exact Hle|].
  exact (proj1 (scoreReviewCount_monotone bistro museum) 10%Q 120%Q
           eq_refl eq_refl Hle).
Defined.

(** ** The ranking (src/src/agent/ranking.ts) *)

(** The ranking loses and adds no venue: the venues of the result are the
    venues of the input, rearranged. *)
Theorem rankVenues_rearranges `{Geodesy} (venues : list Venue)
    (preferences : Preferences) (target : Q)
    (referenceLocation : option Location) (ranked : list ScoredVenue) :
  rankVenues venues preferences target referenceLocation = Returns ranked ->
  map venue ranked ≡ₚ venues.
Proof.
  intros Hr.
  destruct (rankVenues_Returns _ _ _ _ _ Hr) as (scored & Hscored & ->).
  rewrite <- (scored_venues _ _ _ _ _ Hscored), !map_fmap.
  apply fmap_Permutation, sort_perm.
Qed.

Lemma rankVenues_rearranges_witness :
  exists ranked,
    @rankVenues gridDistance [museum; wineBar; arcade]
      (samplePreferences [] []) 20 None = Returns ranked /\
    map venue ranked ≡ₚ [museum; wineBar; arcade].
Proof.
  eexists. split; [vm_compute; reflexivity|].
  apply (@rankVenues_rearranges gridDistance [museum; wineBar; arcade]
           (samplePreferences [] []) 20 None).
  vm_compute. reflexivity.
Defined.

Lemma insert_first {X : Type} (cmp : X -> X -> Q) (rank : X -> Q) (x : X)
    (l : list X) :
  (forall a b, (cmp a b == rank a - rank b)%Q) ->
  ascendingBy rank (x :: l) -> Js.insert cmp x l = x :: l.
Proof.
  intros Hcmp Hsorted. destruct l as [|y l]; [reflexivity|].
  cbn [Js.insert].
  apply StronglySorted_inv in Hsorted as [_ Hx].
  apply Forall_inv in Hx.
  assert (Js.leb (cmp x y) 0 = true) as ->; [|reflexivity].
  apply leb_le. rewrite Hcmp. lra.
Qed.

(** Sorting a list that is in order already changes nothing. *)
Lemma sort_ascending_id {X : Type} (cmp : X -> X -> Q) (rank : X -> Q)
    (l : list X) :
  (forall a b, (cmp a b == rank a - rank b)%Q) ->
  ascendingBy rank l -> Js.sort cmp l = l.
Proof.
  intros Hcmp. induction l as [|x l IH]; intros Hsorted; [reflexivity|].
  cbn [Js.sort foldr]. fold (Js.sort cmp l).
  rewrite IH by (by apply StronglySorted_inv in Hsorted as [? _]).
  by eapply insert_first.
Qed.

(** With distances that are numbers ranking is idempotent: ranking the
    venues of a ranking again, around the same reference point, returns
    that very ranking. *)
Theorem rankVenues_idempotent `{Geodesy} (venues : list Venue)
    (preferences : Preferences) (target : Q) (reference : Location)
    (ranked : list ScoredVenue) :
  Forall (fun v => calculateDistance (location v) reference <> Js.NaN)
         venues ->
  rankVenues venues preferences target (Some reference) = Returns ranked ->
  rankVenues (map venue ranked) preferences target (Some reference)
  = Returns ranked.
Proof.
  intros Hd Hr.
  destruct (rankVenues_Returns _ _ _ _ _ Hr) as (scored & Hscored & Hsort).
  cbn [default from_option] in Hscored. unfold Datatypes.id in Hscored.
  pose proof (scored_numbers _ _ _ _ _ Hscored Hd) as Hn.
  rewrite (sort_numbers scored Hn) in Hsort.
  assert (Forall (fun sv => score sv <> Js.NaN) ranked) as Hn'
    by (by rewrite Hsort, sort_perm).
  assert (Forall (fun sv => scoreVenue preferences target reference (venue sv)
                            = Returns sv) ranked) as Hall.
  { rewrite Hsort. eapply Permutation_Forall; [symmetry; apply sort_perm|].
    clear Hr Hsort Hn Hn' Hd. induction Hscored as [|v sv vs svs Hsv _ IH];
      constructor; [|exact IH].
    by destruct (scoreVenue_Returns _ _ _ _ _ Hsv) as [-> _]. }
  unfold rankVenues. cbn [default from_option]. unfold Datatypes.id.
  assert (mapM (scoreVenue preferences target reference) (map venue ranked)
          = Returns ranked) as ->.
  { apply mapM_Returns. clear Hr Hsort Hn'.
    induction Hall as [|sv svs Hsv _ IH]; constructor; assumption. }
  cbn [mbind Outcome_bind]. f_equal.
  rewrite (sort_numbers ranked Hn').
  apply (sort_ascending_id byScoreValue (fun x => - scoreValue x)%Q);
    [apply byScoreValue_rank|].
  rewrite Hsort. apply sort_ascending, byScoreValue_rank.
Qed.

Lemma rankVenues_idempotent_witness :
  Forall (fun v => @calculateDistance gridDistance (location v)
                     (location wineBar) <> Js.NaN)
         [arcade; museum; wineBar] /\
  exists ranked,
    @rankVenues gridDistance [arcade; museum; wineBar]
      (samplePreferences ["relaxed"] []) 20 (Some (location wineBar))
    = Returns ranked /\
    map (fun sv => placeId (venue sv)) ranked = ["p1"; "p4"; "p5"] /\
    @rankVenues gridDistance (map venue ranked)
      (samplePreferences ["relaxed"] []) 20 (Some (location wineBar))
    = Returns ranked.
Proof.
  assert (Forall (fun v => @calculateDistance gridDistance (location v)
                             (location wineBar) <> Js.NaN)
                 [arcade; museum; wineBar]) as Hd
    by (repeat constructor; discriminate).
  split; [exact Hd|].
  eexists. split; [vm_compute; reflexivity|]. split; [reflexivity|].
  apply (@rankVenues_idempotent gridDistance [arcade; museum; wineBar]
           (samplePreferences ["relaxed"] []) 20 (location wineBar) _ Hd).
  vm_compute. reflexivity.
Defined.

(** ** Centroid and itinerary length (src/src/agent/ranking.ts) *)

Lemma centroid_sum (latLo latHi lngLo lngHi : Q) (venues : list Venue)
    (acc : Location) :
  Forall (fun v => (latLo <= lat (location v) <= latHi)%Q /\
                   (lngLo <= lng (location v) <= lngHi)%Q) venues ->
  let sum := foldl (fun acc v => {| lat := lat acc + lat (location v);
                                    lng := lng acc + lng (location v) |})
                   acc venues in
  let n := inject_Z (Z.of_nat (length venues)) in
  (lat acc + n * latLo <= lat sum <= lat acc + n * latHi)%Q /\
  (lng acc + n * lngLo <= lng sum <= lng acc + n * lngHi)%Q.
Proof.
  intros Hall. revert acc.
  induction Hall as [|v venues [Hlat Hlng] _ IH]; intros acc; cbn zeta.
  - cbn [foldl length]. change (inject_Z (Z.of_nat 0)) with 0%Q. lra.
  - cbn [foldl length].
    specialize (IH {| lat := lat acc + lat (location v);
                      lng := lng acc + lng (location v) |}).
    cbn zeta in IH. cbn [lat lng] in IH.
    rewrite Nat2Z.inj_succ, <- Z.add_1_r, inject_Z_plus.
    change (inject_Z 1) with 1%Q. lra.
Qed.

Lemma Qdiv_between (x n lo hi : Q) :
  (0 < n)%Q -> (0 + n * lo <= x <= 0 + n * hi)%Q -> (lo <= x / n <= hi)%Q.
Proof.
  intros Hn [Hlo Hhi]. split.
  - apply Qle_shift_div_l; [exact Hn|]. lra.
  - apply Qle_shift_div_r; [exact Hn|]. lra.
Qed.



(** Case analysis on the numbers of a goal, each a rational or NaN. *)
Ltac numbers :=
  repeat match goal with
         | x : Js.number |- _ => destruct x
         end;
  cbn [sameNumber Js.add Js.sub Js.mul Js.div Js.lift2] in *;
  try contradiction; try exact I; try lra.

Section Itinerary.
Context `{Geodesy}.

Lemma legs_from (pairs : list (Venue * Venue)) (a : Js.number) :
  sameNumber (foldl leg a pairs) (a + foldl leg (Js.finite 0) pairs)%num.
Proof.
  revert a. induction pairs as [|p pairs IH]; intros a; cbn [foldl].
  - numbers.
  - set (d := calculateDistance (location p.1) (location p.2)).
    change (leg a p) with (a + d)%num.
    change (leg (Js.finite 0) p) with (Js.finite 0 + d)%num.
    pose proof (IH (a + d)%num) as IHa.
    pose proof (IH (Js.finite 0 + d)%num) as IH0.
    clearbody d. clear IH.
    remember (foldl leg (a + d)%num pairs) as x eqn:Ex.
    remember (foldl leg (Js.finite 0 + d)%num pairs) as y eqn:Ey.
    remember (foldl leg (Js.finite 0) pairs) as r eqn:Er.
    clear Ex Ey Er. numbers.
Qed.

Lemma itinerary_cons (a b : Venue) (rest : list Venue) :
  sameNumber (calculateItineraryDistance (a :: b :: rest))
             (calculateDistance (location a) (location b)
              + calculateItineraryDistance (b :: rest))%num.
Proof.
  change (calculateItineraryDistance (a :: b :: rest))
    with (foldl leg (leg (Js.finite 0) (a, b)) (zip (b :: rest) rest)).
  change (calculateItineraryDistance (b :: rest))
    with (foldl leg (Js.finite 0) (zip (b :: rest) rest)).
  set (d := calculateDistance (location a) (location b)).
  change (leg (Js.finite 0) (a, b)) with (Js.finite 0 + d)%num.
  pose proof (legs_from (zip (b :: rest) rest) (Js.finite 0 + d)%num)
    as Hlegs.
  clearbody d.
  remember (foldl leg (Js.finite 0 + d)%num (zip (b :: rest) rest)) as x
    eqn:Ex.
  remember (foldl leg (Js.finite 0) (zip (b :: rest) rest)) as r eqn:Er.
  clear Ex Er. numbers.
Qed.

Lemma itinerary_snoc (l : list Venue) (y x : Venue) :
  sameNumber (calculateItineraryDistance (l ++ [y; x]))
             (calculateItineraryDistance (l ++ [y])
              + calculateDistance (location y) (location x))%num.
Proof.
  induction l as [|a l IH].
  - pose proof (itinerary_cons y x []) as Hyx.
    change (calculateItineraryDistance [x]) with (Js.finite 0) in Hyx.
    cbn [app]. change (calculateItineraryDistance [y]) with (Js.finite 0).
    remember (calculateItineraryDistance [y; x]) as t eqn:Et.
    remember (calculateDistance (location y) (location x)) as d eqn:Ed.
    clear Et Ed. numbers.
  - destruct l as [|b l]; cbn [app] in *.
    + pose proof (itinerary_cons a y [x]) as H1.
      pose proof (itinerary_cons a y []) as H2.
      change (calculateItineraryDistance [y]) with (Js.finite 0) in *.
      remember (calculateItineraryDistance [a; y; x]) as t1 eqn:E1.
      remember (calculateItineraryDistance [a; y]) as t2 eqn:E2.
      remember (calculateItineraryDistance [y; x]) as t3 eqn:E3.
      remember (calculateDistance (location a) (location y)) as d1 eqn:E4.
      remember (calculateDistance (location y) (location x)) as d2 eqn:E5.
      clear E1 E2 E3 E4 E5. numbers.
    + pose proof (itinerary_cons a b (l ++ [y; x])) as H1.
      pose proof (itinerary_cons a b (l ++ [y])) as H2.
      remember (calculateItineraryDistance (a :: b :: l ++ [y; x])) as t1
        eqn:E1.
      remember (calculateItineraryDistance (a :: b :: l ++ [y])) as t2
        eqn:E2.
      remember (calculateItineraryDistance (b :: l ++ [y; x])) as t3 eqn:E3.
      remember (calculateItineraryDistance (b :: l ++ [y])) as t4 eqn:E4.
      remember (calculateDistance (location a) (location b)) as d1 eqn:E5.
      remember (calculateDistance (location y) (location x)) as d2 eqn:E6.
      clear E1 E2 E3 E4 E5 E6. numbers.
Qed.


End Itinerary.

Lemma gridDistance_symmetric (a b : Location) :
  sameNumber (@calculateDistance gridDistance a b)
             (@calculateDistance gridDistance b a).
Proof.
  unfold calculateDistance, gridDistance, sameNumber.
  by rewrite (Qabs_Qminus (lat a)), (Qabs_Qminus (lng a)).
Qed.


(** ** More on the clusters (src/src/agent/ranking.ts) *)

Section ClusterShape.
Context `{Geodesy}.
Variables (radius : Q) (venues : list Venue).

Lemma absorb_near (seed : Venue) (l : list Venue) :
  forall (cluster : list Venue) (assigned : gset string),
  exists extra,
    (foldl (absorb radius seed) (cluster, assigned) l).1 = cluster ++ extra /\
    Forall (fun o => Js.le (calculateDistance (location seed) (location o))
                           radius = true) extra.
Proof.
  induction l as [|other l IH]; intros cluster assigned; cbn [foldl].
  - exists []. by rewrite app_nil_r.
  - unfold absorb at 2.
    destruct (bool_decide _); [apply IH|].
    destruct (Js.le _ _) eqn:Hnear; [|apply IH].
    destruct (IH (cluster ++ [other]) ({[placeId other]} ∪ assigned))
      as (extra & -> & Hextra).
    exists (other :: extra). rewrite <- app_assoc. split; [reflexivity|].
    by constructor.
Qed.

Lemma openCluster_near (l : list Venue) :
  forall (clusters : list (list Venue)) (assigned : gset string),
    Forall (seededWithin radius) clusters ->
    Forall (seededWithin radius)
           (foldl (openCluster radius venues) (clusters, assigned) l).1.
Proof.
  induction l as [|v l IH]; intros clusters assigned Hcs; cbn [foldl];
    [exact Hcs|].
  unfold openCluster at 2.
  destruct (bool_decide _); [by apply IH|].
  destruct (absorb_near v venues [v] ({[placeId v]} ∪ assigned))
    as (extra & Hc & Hextra).
  destruct (foldl (absorb radius v) _ venues) as [cluster assigned'].
  cbn [fst] in Hc. subst cluster. apply IH.
  apply Forall_app. split; [exact Hcs|].
  constructor; [|constructor]. by exists v, extra.
Qed.

End ClusterShape.

(** Every cluster has a first venue, its seed, and every other venue of
    the cluster is within the radius of the seed; the clusters come in
    non-increasing order of size. *)
Theorem clusterByProximity_seeded_and_ordered `{Geodesy}
    (venues : list Venue) (maxDistanceMeters : option Q) :
  Forall (seededWithin (default 1500%Q maxDistanceMeters))
         (clusterByProximity venues maxDistanceMeters) /\
  StronglySorted (fun c c' => (length c' <= length c)%nat)
                 (clusterByProximity venues maxDistanceMeters).
Proof.
  destruct (clusterByProximity_sorted venues maxDistanceMeters)
    as (cs & assigned & Hfold & ->).
  split.
  - eapply Permutation_Forall; [symmetry; apply sort_perm|].
    pose proof (openCluster_near (default 1500%Q maxDistanceMeters) venues
                  venues [] ∅ ltac:(constructor)) as Hcs.
    by rewrite Hfold in Hcs.
  - eapply StronglySorted_impl;
      [|apply (sort_ascending bySizeDescending
                 (fun c => - inject_Z (Z.of_nat (length c)))%Q)].
    + cbn beta. intros c c' Hcc.
      assert (inject_Z (Z.of_nat (length c'))
              <= inject_Z (Z.of_nat (length c)))%Q as Hle by lra.
      rewrite <- Zle_Qle in Hle. lia.
    + intros c c'. unfold bySizeDescending. ring.
Qed.

Section OneCluster.
Context `{Geodesy}.
Variables (radius : Q) (seed : Venue) (all : list Venue).

Lemma absorb_all (l : list Venue) :
  forall (cluster : list Venue) (assigned : gset string),
    NoDup (map placeId l) ->
    (forall o, In o l -> placeId o ∉ assigned) ->
    Forall (fun o => Js.le (calculateDistance (location seed) (location o))
                           radius = true) l ->
    foldl (absorb radius seed) (cluster, assigned) l
    = (cluster ++ l, list_to_set (map placeId l) ∪ assigned).
Proof.
  induction l as [|o l IH]; intros cluster assigned Hnd Hfresh Hnear.
  - cbn [foldl map list_to_set]. rewrite app_nil_r. f_equal.
    by rewrite union_empty_l_L.
  - cbn [foldl map] in *. unfold absorb at 2.
    apply NoDup_cons in Hnd as [Ho Hnd].
    apply Forall_cons in Hnear as [Hon Hnear].
    rewrite bool_decide_eq_false_2 by (apply Hfresh; by left).
    rewrite Hon.
    rewrite IH; [| exact Hnd | | exact Hnear].
    + rewrite <- app_assoc. cbn [app list_to_set]. f_equal.
      rewrite union_assoc_L.
      by rewrite (union_comm_L (list_to_set (map placeId l))).
    + intros o' Ho'. rewrite elem_of_union, elem_of_singleton.
      intros [Heq|Hin]; [|by apply (Hfresh o'); [right|]].
      apply Ho. rewrite <- Heq. apply list_elem_of_In, in_map, Ho'.
Qed.

Lemma openCluster_skip (l : list Venue) (clusters : list (list Venue))
    (assigned : gset string) :
  (forall o, In o l -> placeId o ∈ assigned) ->
  foldl (openCluster radius all) (clusters, assigned) l
  = (clusters, assigned).
Proof.
  induction l as [|o l IH]; intros Hl; [reflexivity|].
  cbn [foldl]. unfold openCluster at 2.
  rewrite bool_decide_eq_true_2 by (apply Hl; by left).
  apply IH. intros o' Ho'. apply Hl. by right.
Qed.

End OneCluster.

(** When no two venues share a placeId and every venue is within the
    radius of the first one, at a distance that is a number, there is one
    cluster and it is the input. *)
Theorem clusterByProximity_one_cluster `{Geodesy} (first : Venue)
    (others : list Venue) (maxDistanceMeters : option Q) :
  NoDup (map placeId (first :: others)) ->
  Forall (fun o => Js.le (calculateDistance (location first) (location o))
                         (default 1500%Q maxDistanceMeters) = true) others ->
  clusterByProximity (first :: others) maxDistanceMeters
  = [first :: others].
Proof.
  intros Hnd Hnear. unfold clusterByProximity.
  set (radius := default 1500%Q maxDistanceMeters) in *.
  cbn [foldl]. unfold openCluster at 2.
  rewrite bool_decide_eq_false_2 by set_solver.
  cbn [foldl]. unfold absorb at 2.
  rewrite bool_decide_eq_true_2 by set_solver.
  cbn [map] in Hnd. apply NoDup_cons in Hnd as [Hfirst Hnd].
  rewrite (absorb_all radius first others [first]); [|exact Hnd| |exact Hnear].
  2:{ intros o Ho. rewrite elem_of_union, elem_of_singleton.
      intros [Heq|Hin]; [|set_solver].
      apply Hfirst. rewrite <- Heq. apply list_elem_of_In, in_map, Ho. }
  rewrite (openCluster_skip radius (first :: others) others); [reflexivity|].
  intros o Ho. apply elem_of_union. left.
  apply elem_of_list_to_set, list_elem_of_In, in_map, Ho.
Qed.

Lemma clusterByProximity_one_cluster_witness :
  NoDup (map placeId [wineBar; bistro; lounge]) /\
  @clusterByProximity gridDistance [wineBar; bistro; lounge] None
  = [[wineBar; bistro; lounge]].
Proof.
  assert (NoDup (map placeId [wineBar; bistro; lounge])) as Hnd.
  { compute_done. }
  split; [exact Hnd|].
  apply (@clusterByProximity_one_cluster gridDistance wineBar
           [bistro; lounge] None Hnd).
  repeat constructor.
Defined.

(** ** More on the finalist selector (src/src/agent/ranking.ts) *)

Section Finalists.
Context `{Geodesy}.
Variables (preferences : Preferences).

Lemma pick_from (key : string) (upTo : nat) (ranked : list ScoredVenue)
    (sel : Selection) :
  selected sel !! key = None -> backups sel !! key = Some [] ->
  selected (pick key upTo ranked sel) !! key = head (map venue ranked) /\
  backups (pick key upTo ranked sel) !! key
  = Some (map venue (Js.slice 1 upTo ranked)).
Proof.
  intros Hs Hb. destruct ranked as [|first rest]; [|by apply pick_key].
  cbn [pick map head]. unfold Js.slice. by rewrite drop_nil, take_nil.
Qed.

(** [rerankAround] on any pool, empty or not. *)
Lemma rerankAround_picks (key : string) (pool : list Venue) (budget : Q)
    (ranked : list ScoredVenue) (dinnerLocation : Location)
    (sel sel' : Selection) :
  rankVenues pool preferences budget None = Returns ranked ->
  selected sel !! key = head (map venue ranked) ->
  backups sel !! key = Some (map venue (Js.slice 1 3 ranked)) ->
  rerankAround key pool preferences budget ranked dinnerLocation sel
  = Returns sel' ->
  (exists reference reranked,
     rankVenues pool preferences budget reference = Returns reranked /\
     selected sel' !! key = head (map venue reranked) /\
     backups sel' !! key = Some (map venue (Js.slice 1 3 reranked))) /\
  forall other, other <> key ->
    selected sel' !! other = selected sel !! other /\
    backups sel' !! other = backups sel !! other.
Proof.
  intros Hranked Hsel Hback Hre.
  destruct pool as [|v pool].
  - injection Hranked as <-. cbn in Hre. injection Hre as <-.
    split; [|done]. by exists None, [].
  - destruct (rerankAround_Returns preferences key (v :: pool) budget ranked
                dinnerLocation sel sel')
      as [(reranked & ? & ? & ?) Hother]; try done.
    split; [|exact Hother]. by exists (Some dinnerLocation), reranked.
Qed.

(** Whatever the pools, the pick of a category is the first venue of a
    ranking of its pool and the backups are the next ones. *)
Lemma selectBestVenues_rankings (pools : PerCategory (list Venue))
    (budgetPerCategory : PerCategory Q) (sel : Selection) :
  selectBestVenues pools preferences budgetPerCategory = Returns sel ->
  forall key pool budget upTo,
    (key, pool, budget, upTo)
    ∈ [ ("activity", activity pools, activity budgetPerCategory, 3%nat);
        ("dinner", dinner pools, dinner budgetPerCategory, 4%nat);
        ("finish", finish pools, finish budgetPerCategory, 3%nat) ] ->
    exists reference ranked,
      rankVenues pool preferences budget reference = Returns ranked /\
      selected sel !! key = head (map venue ranked) /\
      backups sel !! key = Some (map venue (Js.slice 1 upTo ranked)).
Proof.
  unfold selectBestVenues.
  destruct (rankVenues (activity pools) _ _ None) as [rA|] eqn:EA;
    [|discriminate].
  destruct (rankVenues (dinner pools) _ _ None) as [rD|] eqn:ED;
    [|discriminate].
  destruct (rankVenues (finish pools) _ _ None) as [rF|] eqn:EF;
    [|discriminate].
  cbn [mbind Outcome_bind].
  set (sel0 := {| selected := ∅; backups := _ |}).
  set (sel1 := pick "activity" 3 rA sel0).
  set (sel2 := pick "dinner" 4 rD sel1).
  set (sel3 := pick "finish" 3 rF sel2).
  destruct (pick_from "activity" 3 rA sel0) as [SA BA]; [done|done|].
  fold sel1 in SA, BA.
  destruct (pick_other "dinner" "activity" 4 rD sel1) as [SA2 BA2]; [done|].
  destruct (pick_other "finish" "activity" 3 rF sel2) as [SA3 BA3]; [done|].
  destruct (pick_other "activity" "dinner" 3 rA sel0) as [SD1 BD1]; [done|].
  fold sel1 in SD1, BD1.
  destruct (pick_from "dinner" 4 rD sel1) as [SD BD];
    [by rewrite SD1|by rewrite BD1|].
  destruct (pick_other "finish" "dinner" 3 rF sel2) as [SD3 BD3]; [done|].
  destruct (pick_other "activity" "finish" 3 rA sel0) as [SF1 BF1]; [done|].
  destruct (pick_other "dinner" "finish" 4 rD sel1) as [SF2 BF2]; [done|].
  fold sel1 in SF1, BF1, SF2, BF2. fold sel2 in SF2, BF2.
  destruct (pick_from "finish" 3 rF sel2) as [SF BF];
    [by rewrite SF2, SF1|by rewrite BF2, BF1|].
  fold sel2 in SA2, BA2, SA3, BA3, SD, BD, SD3, BD3.
  fold sel3 in SA3, BA3, SD3, BD3, SF, BF.
  destruct (selected sel3 !! "dinner") as [dinnerVenue|] eqn:Edinner.
  - destruct (rerankAround "activity" _ _ _ rA _ sel3) as [sel4|] eqn:E4;
      [|discriminate].
    cbn [mbind Outcome_bind]. intros E5.
    destruct (rerankAround_picks "activity" (activity pools)
                (activity budgetPerCategory) rA (location dinnerVenue)
                sel3 sel4 EA) as [(refA & rA' & ERA & SA4 & BA4) O4];
      [by rewrite SA3, SA2|by rewrite BA3, BA2|exact E4|].
    destruct (rerankAround_picks "finish" (finish pools)
                (finish budgetPerCategory) rF (location dinnerVenue)
                sel4 sel EF) as [(refF & rF' & ERF & SF5 & BF5) O5];
      [by destruct (O4 "finish") as [-> _]
      |by destruct (O4 "finish") as [_ ->]|exact E5|].
    intros key pool budget upTo Hkey.
    repeat (apply elem_of_cons in Hkey as [[= -> -> -> ->]|Hkey]);
      [| |exists refF, rF'; done|by apply elem_of_nil in Hkey].
    + exists refA, rA'. split; [exact ERA|].
      by destruct (O5 "activity") as [-> ->].
    + exists None, rD. split; [exact ED|].
      destruct (O5 "dinner") as [-> ->]; [done|].
      destruct (O4 "dinner") as [-> ->]; [done|].
      split; [congruence|by rewrite BD3].
  - intros [= <-] key pool budget upTo Hkey.
    repeat (apply elem_of_cons in Hkey as [[= -> -> -> ->]|Hkey]);
      [| |exists None, rF; done|by apply elem_of_nil in Hkey].
    + exists None, rA. split; [exact EA|]. by rewrite SA3, SA2, BA3, BA2.
    + exists None, rD. split; [exact ED|].
      split; [congruence|by rewrite BD3].
Qed.

End Finalists.

Lemma slice_from_1 {X : Type} (upTo : nat) (x : X) (l : list X) :
  Js.slice 1 upTo (x :: l) = take (upTo - 1) l.
Proof. reflexivity. Qed.

(** Whenever [selectBestVenues] returns, for each of the three categories:
    the pick and the backups are venues of the category's pool; there is a
    pick exactly when the pool is not empty; there are at most three dinner
    backups and two of the others; and if the pool lists no venue twice,
    the pick is not among the backups and no backup occurs twice. *)
Theorem selectBestVenues_picks_from_pool `{Geodesy}
    (pools : PerCategory (list Venue)) (preferences : Preferences)
    (budgetPerCategory : PerCategory Q) (sel : Selection) :
  selectBestVenues pools preferences budgetPerCategory = Returns sel ->
  forall key pool most,
    (key, pool, most)
    ∈ [ ("activity", activity pools, 2%nat); ("dinner", dinner pools, 3%nat);
        ("finish", finish pools, 2%nat) ] ->
    exists alternatives,
      backups sel !! key = Some alternatives /\
      (length alternatives <= most)%nat /\
      (forall v, In v alternatives -> In v pool) /\
      (forall v, selected sel !! key = Some v -> In v pool) /\
      (pool = [] <-> selected sel !! key = None) /\
      (pool = [] -> alternatives = []) /\
      (NoDup pool ->
       NoDup alternatives /\
       forall v, selected sel !! key = Some v -> ~ In v alternatives).
Proof.
  intros Hsel key pool most Hkey.
  assert (exists budget,
            (key, pool, budget, S most)
            ∈ [ ("activity", activity pools, activity budgetPerCategory,
                 3%nat);
                ("dinner", dinner pools, dinner budgetPerCategory, 4%nat);
                ("finish", finish pools, finish budgetPerCategory, 3%nat) ])
    as [budget Hkey'].
  { repeat (apply elem_of_cons in Hkey as [[= -> -> ->]|Hkey]);
      [eexists; apply list_elem_of_here
      |eexists; apply list_elem_of_further, list_elem_of_here
      |eexists; do 2 apply list_elem_of_further; apply list_elem_of_here
      |by apply elem_of_nil in Hkey]. }
  destruct (selectBestVenues_rankings preferences pools budgetPerCategory sel
              Hsel key pool budget (S most) Hkey')
    as (reference & ranked & Hranked & Hpick & Hback).
  assert (map venue ranked ≡ₚ pool) as Hperm.
  { destruct (rankVenues_Returns _ _ _ _ _ Hranked) as (scored & Hscored & ->).
    rewrite <- (scored_venues _ _ _ _ _ Hscored), !map_fmap.
    apply fmap_Permutation, sort_perm. }
  exists (map venue (Js.slice 1 (S most) ranked)).
  split; [exact Hback|].
  destruct ranked as [|first rest].
  - cbn [map] in Hperm. apply Permutation_nil_l in Hperm. subst pool.
    cbn [map head] in Hpick. rewrite Hpick.
    unfold Js.slice. rewrite drop_nil, take_nil. cbn [map length].
    repeat split; try done; try lia.
  - rewrite slice_from_1. cbn [map head] in Hpick, Hperm.
    replace (S most - 1)%nat with most by lia.
    assert (forall v, In v (map venue (take most rest)) ->
                      In v (map venue rest)) as Hsub.
    { intros v. rewrite <- firstn_map, <- !list_elem_of_In.
      apply subseteq_take. }
    split; [rewrite length_map, length_take; lia|].
    split.
    { intros v Hv. apply list_elem_of_In. rewrite <- Hperm.
      apply list_elem_of_In. right. by apply Hsub. }
    split.
    { intros v. rewrite Hpick. intros [= <-].
      apply list_elem_of_In. rewrite <- Hperm. by left. }
    split.
    { rewrite Hpick. split; [|done]. intros ->.
      symmetry in Hperm. by apply Permutation_nil_cons in Hperm. }
    split.
    { intros ->. symmetry in Hperm. by apply Permutation_nil_cons in Hperm. }
    intros Hnd. rewrite <- Hperm in Hnd.
    apply NoDup_cons in Hnd as [Hfirst Hrest].
    split.
    + rewrite <- firstn_map.
      apply (sublist_NoDup _ (map venue rest)); [exact Hrest|].
      apply sublist_take.
    + intros v. rewrite Hpick. intros [= <-] Hin.
      apply Hfirst, list_elem_of_In, Hsub, Hin.
Qed.

Lemma selectBestVenues_picks_from_pool_witness :
  exists sel alternatives,
    @selectBestVenues gridDistance
      {| activity := []; dinner := [bistro; wineBar]; finish := [lounge] |}
      (samplePreferences [] [])
      {| activity := 20%Q; dinner := 30%Q; finish := 10%Q |} = Returns sel /\
    selected sel !! "activity" = None /\
    backups sel !! "dinner" = Some alternatives /\
    (forall v, In v alternatives -> In v [bistro; wineBar]).
Proof.
  eexists. 
  destruct (@selectBestVenues_picks_from_pool gridDistance
              {| activity := []; dinner := [bistro; wineBar];
                 finish := [lounge] |}
              (samplePreferences [] [])
              {| activity := 20%Q; dinner := 30%Q; finish := 10%Q |}
              _ ltac:(vm_compute; reflexivity) "dinner" [bistro; wineBar]
              3%nat)
    as (alternatives & Hb & _ & Hin & _).
  { apply list_elem_of_further, list_elem_of_here. }
  exists alternatives. split; [reflexivity|]. split; [reflexivity|].
  split; [exact Hb|exact Hin].
Defined.

(** ** Times of day (src/unnamed/part_000, src/src/agent/graph.ts) *)

Lemma formatTime_clock_all :
  forallb (fun m => String.eqb (formatTime m) (clock m)) minutesOfDay = true.
Proof. vm_compute. reflexivity. Qed.

Lemma formatTime_clock (m : Z) :
  (0 <= m < 1440)%Z -> formatTime m = clock m.
Proof.
  intros Hm. apply String.eqb_eq.
  exact (proj1 (forallb_forall _ _) formatTime_clock_all m
           (minutesOfDay_In m Hm)).
Qed.

(** Formatting a minute of the day and parsing it back gives the minute,
    and the text is a well-formed time. *)
Theorem parseTime_formatTime (m : Z) :
  (0 <= m < 1440)%Z ->
  wellFormedTime (formatTime m) = true /\ parseTime (formatTime m) = Some m.
Proof.
  intros Hm. rewrite (formatTime_clock m Hm).
  pose proof (proj1 (forallb_forall _ _) clock_wellFormed_all m
                (minutesOfDay_In m Hm)) as Hall.
  apply andb_true_iff in Hall as [Hwf Hparse].
  split; [exact Hwf|]. by apply bool_decide_eq_true in Hparse.
Qed.

Lemma parseTime_formatTime_witness :
  (0 <= 1385 < 1440)%Z /\ formatTime 1385 = "23:05" /\
  parseTime (formatTime 1385) = Some 1385%Z.
Proof.
  split; [lia|]. split; [reflexivity|].
  apply (parseTime_formatTime 1385). lia.
Defined.

(** Parsing a well-formed time and formatting the minutes gives the text
    back. *)
Theorem formatTime_parseTime (s : string) :
  wellFormedTime s = true ->
  exists m, parseTime s = Some m /\ formatTime m = s.
Proof.
  intros Hs. destruct (wellFormedTime_clock s Hs) as (m & Hm & Hp & Hc).
  exists m. split; [exact Hp|]. by rewrite formatTime_clock.
Qed.

Lemma formatTime_parseTime_witness :
  wellFormedTime "07:45" = true /\
  exists m, parseTime "07:45" = Some m /\ formatTime m = "07:45".
Proof.
  split; [reflexivity|]. apply (formatTime_parseTime "07:45"). reflexivity.
Defined.

(** From midnight on the text only depends on the minute of the day. *)
Lemma formatTime_mod (x : Z) :
  (0 <= x)%Z -> formatTime x = formatTime (x mod 1440).
Proof.
  intros Hx. unfold formatTime.
  rewrite !Z.rem_mod_nonneg by (Z.to_euclidean_division_equations; lia).
  replace ((x mod 1440 / 60) mod 24)%Z with ((x / 60) mod 24)%Z
    by (Z.to_euclidean_division_equations; lia).
  replace ((x mod 1440) mod 60)%Z with (x mod 60)%Z
    by (Z.to_euclidean_division_equations; lia).
  reflexivity.
Qed.

Lemma Number_two_digits (a b : ascii) :
  Js.isDigit a = true -> Js.isDigit b = true ->
  Js.Number (String a (String b EmptyString))
  = Some (10 * Js.digitValue a + Js.digitValue b)%Z.
Proof.
  intros Ha Hb. unfold Js.Number. cbn [Js.allDigits Js.digits default].
  by rewrite Ha, Hb.
Qed.

Lemma addMinutes_wellFormed (time : string) (mins : Z) :
  wellFormedTime time = true ->
  exists t, (0 <= t < 1440)%Z /\ parseTime time = Some t /\
            addMinutes time mins = formatTime (t + mins).
Proof.
  intros Hs. destruct (wellFormedTime_clock time Hs) as (t & Ht & Hp & _).
  exists t. split; [exact Ht|]. split; [exact Hp|].
  destruct time as [|h1 [|h2 [|c [|m1 [|m2 [|? ?]]]]]]; try discriminate.
  cbn [wellFormedTime] in Hs. rewrite !andb_true_iff in Hs.
  destruct Hs as [[[[[[H1 H2] Hc] H3] H4] Hh] Hm].
  apply Nat.eqb_eq in Hc.
  assert (c = ":"%char) as ->.
  { rewrite <- (ascii_nat_embedding c). unfold Js.code in Hc. by rewrite Hc. }
  revert Hp. unfold parseTime, addMinutes.
  rewrite (split_two_digits _ _ _ H1 H2), (split_last_two_digits _ _ H3 H4).
  cbn [map].
  change (default "0" ((?x :: ?l) !! 0%nat)) with x.
  change (default "0" ((?x :: ?y :: ?l) !! 1%nat)) with y.
  change (default (Some 0%Z) ((?x :: ?l) !! 0%nat)) with x.
  change (default (Some 0%Z) ((?x :: ?y :: ?l) !! 1%nat)) with y.
  rewrite (parseInt_two_digits _ _ H1 H2), (parseInt_two_digits _ _ H3 H4).
  rewrite (Number_two_digits _ _ H1 H2), (Number_two_digits _ _ H3 H4).
  cbn [mbind option_bind]. by intros [= <-].
Qed.

(** From midnight on the text is a well-formed time, that of the minute of
    the day. *)
Lemma formatTime_minute (x : Z) :
  (0 <= x)%Z ->
  wellFormedTime (formatTime x) = true /\
  parseTime (formatTime x) = Some (x mod 1440)%Z.
Proof.
  intros Hx. rewrite formatTime_mod by lia.
  assert (0 <= x mod 1440 < 1440)%Z as Hm by (apply Z.mod_pos_bound; lia).
  rewrite (formatTime_clock _ Hm).
  pose proof (proj1 (forallb_forall _ _) clock_wellFormed_all _
                (minutesOfDay_In _ Hm)) as Hall.
  apply andb_true_iff in Hall as [Hwf Hparse].
  split; [exact Hwf|]. by apply bool_decide_eq_true in Hparse.
Qed.

(** Adding minutes to a well-formed time gives the well-formed time that
    many minutes later, past midnight if need be. *)
Theorem addMinutes_later (time : string) (mins : Z) :
  wellFormedTime time = true -> (0 <= mins)%Z ->
  exists t,
    parseTime time = Some t /\
    wellFormedTime (addMinutes time mins) = true /\
    parseTime (addMinutes time mins) = Some ((t + mins) mod 1440)%Z.
Proof.
  intros Hs Hmins.
  destruct (addMinutes_wellFormed time mins Hs) as (t & Ht & Hp & ->).
  exists t. split; [exact Hp|]. apply formatTime_minute. lia.
Qed.

Lemma addMinutes_later_witness :
  wellFormedTime "23:30" = true /\ (0 <= 45)%Z /\
  addMinutes "23:30" 45 = "00:15" /\
  parseTime (addMinutes "23:30" 45) = Some 15%Z.
Proof.
  split; [reflexivity|]. split; [lia|]. split; [reflexivity|].
  destruct (addMinutes_later "23:30" 45 eq_refl ltac:(lia))
    as (t & Ht & _ & Hlater).
  injection Ht as <-. exact Hlater.
Defined.

(** Adding minutes in two steps is adding their sum. *)
Theorem addMinutes_twice (time : string) (a b : Z) :
  wellFormedTime time = true -> (0 <= a)%Z -> (0 <= b)%Z ->
  addMinutes (addMinutes time a) b = addMinutes time (a + b).
Proof.
  intros Hs Ha Hb.
  destruct (addMinutes_wellFormed time a Hs) as (t & Ht & Hp & Ha').
  destruct (formatTime_minute (t + a) ltac:(lia)) as [Hwf Hpa].
  rewrite <- Ha' in Hwf, Hpa.
  destruct (addMinutes_wellFormed (addMinutes time a) b Hwf)
    as (t' & _ & Hp' & ->).
  destruct (addMinutes_wellFormed time (a + b) Hs) as (t'' & _ & Hp'' & ->).
  assert (t' = (t + a) mod 1440)%Z as -> by congruence.
  assert (t'' = t) as -> by congruence.
  rewrite (formatTime_mod ((t + a) mod 1440 + b))
    by (Z.to_euclidean_division_equations; lia).
  rewrite (formatTime_mod (t + (a + b))) by lia.
  f_equal. rewrite Z.add_assoc, Zplus_mod_idemp_l. reflexivity.
Qed.

Lemma addMinutes_twice_witness :
  wellFormedTime "18:00" = true /\ (0 <= 100)%Z /\ (0 <= 1400)%Z /\
  addMinutes (addMinutes "18:00" 100) 1400 = addMinutes "18:00" 1500.
Proof.
  split; [reflexivity|]. split; [lia|]. split; [lia|].
  apply (addMinutes_twice "18:00" 100 1400); [reflexivity|lia|lia].
Defined.

(** ** The timetable of a skeleton (src/unnamed/part_000) *)

Lemma assignFrom_timed (t : Z) (sl : list SkeletonSlot) :
  Forall timed sl -> Forall timed (assignFrom t sl).
Proof.
  intros Hsl. revert t.
  induction Hsl as [|x sl Hx _ IH]; intros t; cbn [assignFrom];
    constructor; [exact Hx|apply IH].
Qed.

(** Each slot starts where the slots before it, and the ten minutes after
    each of them, have got to. *)
Lemma assignFrom_starts (sl : list SkeletonSlot) :
  Forall timed sl ->
  forall (t : Z) (i : nat) (s : SkeletonSlot),
    assignFrom t sl !! i = Some s ->
    timeStart s
    = Some (formatTime (t + sumDurations (take i (assignFrom t sl))
                        + 10 * Z.of_nat i)).
Proof.
  induction 1 as [|x sl [d Hd] _ IH]; intros t i s; [done|].
  cbn [assignFrom]. destruct i as [|i].
  - intros [= <-]. cbn [timeStart take sumDurations foldr].
    do 2 f_equal. lia.
  - cbn [lookup list_lookup]. intros Hs. rewrite (IH _ _ _ Hs).
    cbn [take sumDurations foldr durationMins].
    fold (sumDurations
            (take i (assignFrom (t + default 60%Z (durationMins x) + 10) sl))).
    rewrite Hd. cbn [default]. unfold Datatypes.id. do 2 f_equal. lia.
Qed.

Lemma rescale_timed (scale : Q) (sl : list SkeletonSlot) :
  Forall timed (map (rescale scale) sl).
Proof. induction sl; constructor; [by eexists|assumption]. Qed.

Lemma templateSlots_length (t : Template) (w : Z) :
  (2 <= length (templateSlots t w) <= 4)%nat.
Proof. destruct t; cbn; lia. Qed.

(** On well-formed times the first slot of the skeleton starts at the start
    time as it was given, every slot starts when the slots before it and
    ten minutes after each of them have passed, and the last slot ends
    after the window has: by eight minutes at least. *)
Theorem buildSkeleton_timetable (b : Budget) (st en : string) :
  wellFormedTime st = true -> wellFormedTime en = true ->
  exists s e sk,
    parseTime st = Some s /\ parseTime en = Some e /\
    buildSkeleton b st en = Some sk /\
    timeStart <$> head (slots sk) = Some (Some st) /\
    (forall (i : nat) (x : SkeletonSlot),
       slots sk !! i = Some x ->
       timeStart x
       = Some (formatTime (s + sumDurations (take i (slots sk))
                           + 10 * Z.of_nat i))) /\
    (windowMins s e + 8
     <= sumDurations (slots sk)
        + 10 * (Z.of_nat (length (slots sk)) - 1))%Z.
Proof.
  intros Hst Hen.
  destruct (buildSkeleton_wellFormed b st en Hst Hen)
    as (s & e & Hs & He & Hsr & Her & _ & Hbuild).
  eexists s, e, _. cbn zeta in Hbuild.
  split; [exact Hs|]. split; [exact He|]. split; [exact Hbuild|].
  cbn [slots].
  set (w := windowMins s e) in *.
  set (t := templateRule (amount b) s e w) in *.
  set (scaled := map (rescale (scaleFor w (totalTemplateMins
                                             (templateSlots t w))))
                     (templateSlots t w)).
  pose proof (templateSlots_length t w) as Hlen.
  assert (length scaled = length (templateSlots t w)) as Hscaled
    by apply length_map.
  split; [|split].
  - destruct scaled as [|x rest]; [cbn in Hscaled; lia|].
    cbn [assignFrom head fmap option_fmap option_map timeStart].
    destruct (wellFormedTime_clock st Hst) as (m & Hm & Hp & Hc).
    assert (m = s) as -> by congruence.
    by rewrite (formatTime_clock s Hm), Hc.
  - apply assignFrom_starts, rescale_timed.
  - rewrite sumDurations_assignFrom, length_assignFrom, Hscaled.
    pose proof (windowMins_range s e Hsr Her) as Hw.
    pose proof (templateSlots_window t w ltac:(subst w; lia)) as Hsum.
    cbn zeta in Hsum. fold scaled in Hsum. lia.
Qed.

Lemma buildSkeleton_timetable_witness :
  wellFormedTime "18:00" = true /\ wellFormedTime "23:30" = true /\
  exists sk,
    buildSkeleton evening "18:00" "23:30" = Some sk /\
    map timeStart (slots sk)
    = [Some "18:00"; Some "19:05"; Some "21:05"; Some "23:05"] /\
    map durationMins (slots sk) = [Some 55; Some 110; Some 110; Some 55]%Z /\
    (330 + 8 <= sumDurations (slots sk)
                + 10 * (Z.of_nat (length (slots sk)) - 1))%Z.
Proof.
  split; [reflexivity|]. split; [reflexivity|].
  destruct (buildSkeleton_timetable evening "18:00" "23:30" eq_refl eq_refl)
    as (s & e & sk & Hs & He & Hbuild & _ & _ & Hover).
  exists sk. split; [exact Hbuild|].
  injection Hs as <-. injection He as <-.
  injection Hbuild as <-.
  split; [reflexivity|]. split; [reflexivity|]. exact Hover.
Defined.

(** ** The ranking node (src/src/agent/graph.ts) *)

(** The budget of a slot type depends on the types and percents of the
    slots only. *)
Lemma getBudgetForSlot_shape (sk : Skeleton) (slotType : string) :
  getBudgetForSlot sk slotType
  = match List.find (fun p => String.eqb (slotTypeName p.1) slotType)
                    (shape (slots sk)) with
    | None => 0%Z
    | Some p => Js.round (totalBudget sk * inject_Z p.2 / 100)
    end.
Proof.
  unfold getBudgetForSlot, shape.
  induction (slots sk) as [|x l IH]; [reflexivity|].
  cbn [List.find map fst snd].
  destruct (String.eqb _ _); [reflexivity|exact IH].
Qed.

Lemma round_nonneg (x : Q) : (0 <= x)%Q -> (0 <= Js.round x)%Z.
Proof. intros Hx. apply (round_mono 0 x Hx). Qed.

Ltac round_bounds :=
  repeat match goal with
         | |- context [Js.round ?x] =>
             pose proof (round_le x); pose proof (round_gt x);
             assert (inject_Z 0 <= inject_Z (Js.round x))%Q
               by (rewrite <- Zle_Qle; apply round_nonneg; lra);
             generalize dependent (Js.round x); intros
         end.

(** The three category budgets read off a built skeleton are whole,
    non-negative amounts; together they come to between nine tenths of the
    budget less 2 and the budget plus 2, and in a two-slot skeleton there is
    nothing for the finish. *)
Theorem budgetPerCategory_of_skeleton (b : Budget) (st en : string)
    (sk : Skeleton) :
  wellFormedTime st = true -> wellFormedTime en = true ->
  (0 <= amount b)%Q ->
  buildSkeleton b st en = Some sk ->
  let shares := budgetPerCategory (Some sk) b in
  (0 <= activity shares)%Q /\ (0 <= dinner shares)%Q /\
  (0 <= finish shares)%Q /\
  (amount b * (9 # 10) - 2
   <= activity shares + dinner shares + finish shares)%Q /\
  (activity shares + dinner shares + finish shares <= amount b + 2)%Q /\
  (length (slots sk) = 2%nat -> finish shares == 0)%Q.
Proof.
  intros Hst Hen Hb Hbuild.
  destruct (buildSkeleton_wellFormed b st en Hst Hen)
    as (s & e & _ & _ & _ & _ & _ & Hsk).
  cbn zeta in Hsk. rewrite Hsk in Hbuild. injection Hbuild as <-.
  cbn [budgetPerCategory activity dinner finish].
  rewrite !getBudgetForSlot_shape. cbn [slots totalBudget].
  rewrite length_assignFrom, length_map, shape_assignFrom, shape_rescale,
    shape_templateSlots.
  generalize (windowMins s e). intros w.
  destruct (templateRule (amount b) s e w);
    cbn [templateShape templateSlots length List.find fst snd slotTypeName
         String.eqb Ascii.eqb Bool.eqb];
    rewrite ?inject_Z_plus;
    change (inject_Z 0) with 0%Q;
    repeat match goal with
           | |- context [inject_Z (Zpos ?p)] =>
               change (inject_Z (Zpos p)) with (Zpos p # 1)%Q
           end;
    by_constant 100%Q; round_bounds; change (inject_Z 0) with 0%Q in *;
    (split; [|split; [|split; [|split; [|split]]]]);
    try (intros; discriminate); try lra.
Qed.

Lemma budgetPerCategory_of_skeleton_witness :
  wellFormedTime "18:00" = true /\ wellFormedTime "20:00" = true /\
  (0 <= amount evening)%Q /\
  exists sk,
    buildSkeleton evening "18:00" "20:00" = Some sk /\
    budgetPerCategory (Some sk) evening
    = {| activity := 60%Q; dinner := 90%Q; finish := 0%Q |} /\
    (finish (budgetPerCategory (Some sk) evening) == 0)%Q.
Proof.
  split; [reflexivity|]. split; [reflexivity|]. split; [discriminate|].
  eexists. split; [vm_compute; reflexivity|]. split; [reflexivity|].
  refine (proj2 (proj2 (proj2 (proj2 (proj2
            (budgetPerCategory_of_skeleton evening "18:00" "20:00" _
               eq_refl eq_refl _ eq_refl))))) eq_refl).
  discriminate.
Defined.

Lemma rankVenues_perm `{Geodesy} (venues : list Venue)
    (preferences : Preferences) (target : Q)
    (referenceLocation : option Location) (ranked : list ScoredVenue) :
  rankVenues venues preferences target referenceLocation = Returns ranked ->
  map venue ranked ≡ₚ venues /\ length ranked = length venues.
Proof.
  intros Hr.
  assert (map venue ranked ≡ₚ venues) as Hperm.
  { destruct (rankVenues_Returns _ _ _ _ _ Hr) as (scored & Hscored & ->).
    rewrite <- (scored_venues _ _ _ _ _ Hscored), !map_fmap.
    apply fmap_Permutation, sort_perm. }
  split; [exact Hperm|].
  by rewrite <- (Permutation_length Hperm), length_map.
Qed.

(** With a party of one or more, or none set: when there is no candidate
    at all the node leaves the state alone; otherwise, if it returns, it
    stores back the three pools with the venues they had, each rearranged. *)
Theorem rankCluster_rearranges `{Geodesy} (state : GraphState) :
  (forall n, state_partySize state = Some n -> 0 < n)%Q ->
  let pools := default DEFAULT_CANDIDATE_POOLS (state_candidatePools state) in
  (activity pools = [] /\ dinner pools = [] /\ finish pools = [] ->
   rankCluster state = Returns None) /\
  (rankCluster state = Returns None ->
   activity pools = [] /\ dinner pools = [] /\ finish pools = []) /\
  (forall ranked,
     rankCluster state = Returns (Some ranked) ->
     activity ranked ≡ₚ activity pools /\
     dinner ranked ≡ₚ dinner pools /\
     finish ranked ≡ₚ finish pools).
Proof.
  intros _ pools. unfold rankCluster. fold pools.
  destruct (Nat.eqb_spec (length (activity pools) + length (dinner pools)
                          + length (finish pools)) 0) as [Hnone|Hsome].
  - split; [reflexivity|]. split; [|discriminate].
    intros _.
    destruct (activity pools), (dinner pools), (finish pools);
      cbn in Hnone; first [lia|done].
  - split; [|split].
    + intros (Ha & Hd & Hf). rewrite Ha, Hd, Hf in Hsome. done.
    + destruct (rankVenues (activity pools) _ _ _); [|discriminate].
      destruct (rankVenues (dinner pools) _ _ _); [|discriminate].
      destruct (rankVenues (finish pools) _ _ _); discriminate.
    + intros ranked.
      destruct (rankVenues (activity pools) _ _ _) as [ra|] eqn:Ea;
        [|discriminate].
      destruct (rankVenues (dinner pools) _ _ _) as [rd|] eqn:Ed;
        [|discriminate].
      destruct (rankVenues (finish pools) _ _ _) as [rf|] eqn:Ef;
        [|discriminate].
      cbn [mbind Outcome_bind]. intros [= <-]. cbn [activity dinner finish].
      split; [|split]; eapply rankVenues_perm; eassumption.
Qed.

Lemma rankCluster_rearranges_witness :
  let state := {| state_candidatePools :=
                    Some {| activity := [arcade; museum];
                            dinner := [bistro; wineBar];
                            finish := [lounge] |};
                  state_budget := Some evening;
                  state_partySize := Some 2%Q;
                  state_preferences := None;
                  state_skeleton := buildSkeleton evening "18:00" "23:30" |} in
  (forall n, state_partySize state = Some n -> 0 < n)%Q /\
  exists ranked,
    @rankCluster gridDistance state = Returns (Some ranked) /\
    map placeId (activity ranked) = ["p5"; "p4"] /\
    activity ranked ≡ₚ [arcade; museum] /\
    dinner ranked ≡ₚ [bistro; wineBar] /\
    finish ranked ≡ₚ [lounge].
Proof.
  intros state.
  assert (forall n, state_partySize state = Some n -> 0 < n)%Q as Hparty
    by (intros n [= <-]; reflexivity).
  split; [exact Hparty|].
  pose proof (@rankCluster_rearranges gridDistance state Hparty) as Hall.
  cbn zeta in Hall. destruct Hall as (_ & _ & Hperm).
  eexists. split; [vm_compute; reflexivity|].
  split; [reflexivity|].
  match goal with
  | |- activity ?r ≡ₚ _ /\ _ =>
      exact (Hperm r ltac:(vm_compute; reflexivity))
  end.
Defined.
